(** * Compress Image node: shallow embedding of
      [nodes/CompressImage/CompressImage.node.ts] and its specification.

    The node reads one image per input record, guards its size, builds a
    chain of codec calls (rotate, resize, metadata, encode), runs it and
    assembles an output record.  The codec (sharp), the base64 decoder
    ([Buffer.from]), [path.parse] and the n8n execution context are
    libraries outside the repository.  The execution context, the codec and
    the decoder are fields of a parameter ([Host]); [path.parse] and the
    regular expression of the data-URI prefix are written out after Node's
    behaviour; [Base64.decode] is Node's decoder, used where a concrete
    context is run.

    Numbers.  A JavaScript number is a double.  Every finite double is a
    rational, and [Math.round], [Math.floor], [Math.min], [Math.max],
    comparison and the integer arithmetic of this file are exact on
    doubles, so finite numbers are embedded as [Q] with exact operations.
    The two divisions of the source ([/ 100] in the quality mapper,
    [/ originalSize] in the statistics) are taken exactly as well; for the
    first one [png_level_rounding_stable] shows that the following
    [Math.round] absorbs any error below 1/100.  NaN and the infinities are
    outside the model. *)

From Stdlib Require Import ZArith QArith Qround Qminmax Qabs Lia Lqa List.
From Stdlib Require Import String Ascii DecimalString.
From Stdlib.Strings Require Import Byte.
From stdpp Require Import base option gmap strings.
Import ListNotations.

Local Open Scope Z_scope.

(** ** JavaScript numbers *)

Module JsMath.

Definition floor (x : Q) : Q := inject_Z (Qfloor x).

(** [Math.round] rounds to the nearest integer, a tie going up. *)
Definition round (x : Q) : Q := inject_Z (Qfloor (x + (1 # 2))).

Definition max (x y : Q) : Q := Qmax x y.
Definition min (x y : Q) : Q := Qmin x y.

(** The comparison [x > y]. *)
Definition gt (x y : Q) : bool := negb (Qle_bool x y).

(** A number in a condition ([if (width || height)]): false for 0. *)
Definition truthy (x : Q) : bool := negb (Qeq_bool x 0).

End JsMath.

(** ** Strings

    A JavaScript string is embedded as a [string], one character per code
    unit (code units above 255 are outside the model); template literals
    become concatenations.  The double quote of the error messages is built
    from its character code. *)

Definition dquote : string := String "034"%char EmptyString.

(** [String(n)] for the integers the messages print (byte counts, below
    the 10^21 from which JavaScript switches to the exponent notation). *)
Definition Number_toString (x : Q) : string :=
  NilZero.string_of_int (Z.to_int (Qfloor x)).

Fixpoint span (f : ascii -> bool) (l : list ascii) : list ascii * list ascii :=
  match l with
  | [] => ([], [])
  | c :: l' =>
      if f c then let (a, b) := span f l' in (c :: a, b) else ([], l)
  end.

Fixpoint dropWhile (f : ascii -> bool) (l : list ascii) : list ascii :=
  match l with
  | [] => []
  | c :: l' => if f c then dropWhile f l' else l
  end.

(** [strip_literal lit s] is the rest of [s] after the literal [lit], when
    [s] starts with it. *)
Fixpoint strip_literal (lit s : list ascii) : option (list ascii) :=
  match lit, s with
  | [], _ => Some s
  | a :: lit', b :: s' => if Ascii.eqb a b then strip_literal lit' s' else None
  | _ :: _, [] => None
  end.

(** *** [path.parse(p).name] of node:path (POSIX)

    Node drops trailing separators, keeps the last path component and cuts
    it at its last dot, unless there is no dot, the dot is the first
    character of the component, or the component is [..].  Its scan stops
    before the leading separator of an absolute path, so it does not see
    that a component standing right after that separator starts a part:
    for [/..] the exception of [..] does not apply, and the name is [.]. *)
Module path.

Definition is_sep (c : ascii) : bool := Ascii.eqb c "/".
Definition is_dot (c : ascii) : bool := Ascii.eqb c ".".

(** The last component, reversed. *)
Definition rev_base (p : list ascii) : list ascii :=
  fst (span (fun c => negb (is_sep c)) (dropWhile is_sep (rev p))).

(** What stands before the last component, reversed. *)
Definition rev_above (p : list ascii) : list ascii :=
  snd (span (fun c => negb (is_sep c)) (dropWhile is_sep (rev p))).

Definition rev_name (rbase : list ascii) : list ascii :=
  match span (fun c => negb (is_dot c)) rbase with
  | (_, []) => rbase                      (* no dot *)
  | (_, _ :: []) => rbase                 (* the dot starts the component *)
  | ([], _ :: [d]) => if is_dot d then rbase else [d]     (* [..] *)
  | (_, _ :: rstem) => rstem
  end.

(** The component [..] right after the leading separator. *)
Definition after_root_dotdot (p : list ascii) : bool :=
  match rev_base p, rev_above p with
  | [a; b], [c] => is_dot a && is_dot b && is_sep c
  | _, _ => false
  end.

Definition parse_name (p : string) : string :=
  let l := list_ascii_of_string p in
  string_of_list_ascii
    (rev (if after_root_dotdot l then ["."%char] else rev_name (rev_base l))).

End path.

(** *** [b64raw.replace(/^data:[^;]+;base64,/, '')]

    The pattern is anchored at the start and replaces at most once.  The
    class [[^;]+] takes one or more characters other than [;]; only its
    longest run can be followed by the [;] of [;base64,]. *)
Definition replace_data_uri_prefix (b64raw : string) : string :=
  let s := list_ascii_of_string b64raw in
  match strip_literal (list_ascii_of_string "data:") s with
  | Some rest =>
      match span (fun c => negb (Ascii.eqb c ";")) rest with
      | ([], _) => b64raw
      | (_ :: _, rest') =>
          match strip_literal (list_ascii_of_string ";base64,") rest' with
          | Some cleaned => string_of_list_ascii cleaned
          | None => b64raw
          end
      end
  | None => b64raw
  end.

(** *** [Buffer.from(s, 'base64')]

    Node's decoder: both RFC 4648 alphabets, characters outside them are
    skipped, decoding ends at the first [=]. *)
Abbreviation Buffer := (list byte).

Module Base64.

Definition unbase64 (c : ascii) : option N :=
  let n := N_of_ascii c in
  if ((65 <=? n) && (n <=? 90))%N then Some (n - 65)%N
  else if ((97 <=? n) && (n <=? 122))%N then Some (n - 71)%N
  else if ((48 <=? n) && (n <=? 57))%N then Some (n + 4)%N
  else if ((n =? 43) || (n =? 45))%N then Some 62%N
  else if ((n =? 47) || (n =? 95))%N then Some 63%N
  else None.

Fixpoint sextets (s : list ascii) : list N :=
  match s with
  | [] => []
  | c :: s' =>
      if Ascii.eqb c "=" then []
      else match unbase64 c with
           | Some v => v :: sextets s'
           | None => sextets s'
           end
  end.

Definition octet (n : N) : byte :=
  match Byte.of_N (n mod 256) with Some b => b | None => x00 end.

Fixpoint octets (l : list N) : Buffer :=
  match l with
  | a :: b :: c :: d :: l' =>
      octet (a * 4 + b / 16) :: octet (b * 16 + c / 4) :: octet (c * 64 + d)
      :: octets l'
  | [a; b; c] => [octet (a * 4 + b / 16); octet (b * 16 + c / 4)]
  | [a; b] => [octet (a * 4 + b / 16)]
  | _ => []
  end.

Definition decode (s : string) : Buffer :=
  octets (sextets (list_ascii_of_string s)).

End Base64.

(** ** Helpers of the module *)

Definition clamp (value min max : Q) : Q :=
  JsMath.min (JsMath.max value min) max.

Definition pngCompressionLevelFromQuality (quality : Q) : Q :=
  let q := clamp (JsMath.round quality) 0 100 in
  let level := JsMath.round (((100 - q) * 9) / 100)%Q in
  clamp level 0 9.

(** [y] is the integer nearest to [x], a tie going to the larger one: the
    rounding rule the specification fixes for the level mapping. *)
Definition nearest_half_up (x : Q) (y : Z) : Prop :=
  (inject_Z y - (1 # 2) <= x)%Q /\ (x < inject_Z y + (1 # 2))%Q.

Definition clampZ (value lo hi : Z) : Z := Z.min (Z.max value lo) hi.

(** [getMimeAndExt(format)] *)
Record MimeAndExt := { mime : string; ext : string }.

Definition getMimeAndExt (format : string) : MimeAndExt :=
  if (format =? "jpg")%string || (format =? "jpeg")%string
  then {| mime := "image/jpeg"; ext := "jpg" |}
  else if (format =? "png")%string then {| mime := "image/png"; ext := "png" |}
  else if (format =? "webp")%string then {| mime := "image/webp"; ext := "webp" |}
  else if (format =? "avif")%string then {| mime := "image/avif"; ext := "avif" |}
  else {| mime := "application/octet-stream"; ext := "bin" |}.

(** ** Records of the workflow ([INodeExecutionData]) *)

#[local] Unset Elimination Schemes.
Inductive JsonValue :=
| JNull
| JBool (b : bool)
| JNumber (x : Q)
| JString (s : string)
| JArray (elements : list JsonValue)
| JObject (fields : gmap string JsonValue).
#[local] Set Elimination Schemes.

Record BinaryData := {
  data : string;
  mimeType : string;
  fileName : option string
}.

Record Item := {
  json : gmap string JsonValue;
  binary : option (gmap string BinaryData)
}.

(** ** Property reads

    The records are plain objects.  A read [o[name]] finds the own
    properties of [o] and, through the prototype chain, the properties of
    [Object.prototype]: functions (and an object for [__proto__]), which
    are truthy, are no strings and have no [fileName]. *)

Definition Object_prototype : list string :=
  ["constructor"; "hasOwnProperty"; "isPrototypeOf"; "propertyIsEnumerable";
   "toLocaleString"; "toString"; "valueOf"; "__proto__";
   "__defineGetter__"; "__defineSetter__"; "__lookupGetter__";
   "__lookupSetter__"]%string.

Inductive Property (A : Type) :=
| OwnProperty (value : A)
| InheritedProperty
| NoProperty.
Arguments OwnProperty {A} value.
Arguments InheritedProperty {A}.
Arguments NoProperty {A}.

Definition getProperty {A : Type} (o : gmap string A) (name : string)
  : Property A :=
  match o !! name with
  | Some value => OwnProperty value
  | None =>
      if existsb (String.eqb name) Object_prototype
      then InheritedProperty
      else NoProperty
  end.

(** ** Node parameters, as [getNodeParameter(name, i)] returns them *)

Record ResizeParameter := {
  width : option Q;                (* [None]: absent or not a number *)
  height : option Q;
  maintainAspectRatio : option bool
}.

Record NodeParameters := {
  inputSource : string;
  binaryPropertyName : string;
  base64FieldName : string;
  outputBinaryPropertyName : string;
  format : string;
  stripMetadata : bool;
  quality : Q;
  resize : ResizeParameter;
  maxInputSizeMb : Q
}.

(** ** The codec: the calls made on a sharp instance *)

Module sharp.

Inductive Fit := inside | fill.

Record ResizeOptions := {
  width : option Q;
  height : option Q;
  fit : Fit;
  withoutEnlargement : bool
}.

Inductive Call :=
| rotate
| resize (options : ResizeOptions)
| withMetadata
| jpeg (quality : Q) (mozjpeg : bool)
| png (compressionLevel : Q) (palette : bool)
| webp (quality : Q)
| avif (quality : Q).

End sharp.

(** ** Errors *)

Inductive Result (A : Type) :=
| Ok (value : A)
| Throw (message : string).
Arguments Ok {A} value.
Arguments Throw {A} message.

Definition bind {A B : Type} (r : Result A) (k : A -> Result B) : Result B :=
  match r with
  | Ok a => k a
  | Throw message => Throw message
  end.

Notation "'let!' x ':=' r 'in' k" := (bind r (fun x => k))
  (at level 10, x pattern, r at level 100, k at level 200).

(** ** The execution context and the libraries

    [getNodeParameter] gives the parameters of record [i] with the types the
    source casts them to; the reads themselves are taken to succeed (a read
    that throws would be the error of the record, as the reads stand in the
    [try] block).  The helpers and the codec either return or throw an error
    with a message. *)

Record Host := {
  getNodeParameter : nat -> NodeParameters;
  getBinaryDataBuffer : nat -> string -> Result Buffer;
  prepareBinaryData : Buffer -> string -> string -> Result BinaryData;
  continueOnFail : bool;
  (** [Buffer.from(s, 'base64')] *)
  Buffer_from_base64 : string -> Buffer;
  (** [sharp(input)] followed by the calls and [toBuffer()] *)
  toBuffer : Buffer -> list sharp.Call -> Result Buffer
}.

(** ** The node *)

(** [buffer.length] *)
Definition byteLength (buffer : Buffer) : Q :=
  inject_Z (Z.of_nat (length buffer)).

Section Node.

Variable host : Host.

(** [const width = typeof resize.width === 'number' && resize.width > 0
      ? Math.floor(resize.width) : undefined], and the same for [height]. *)
Definition dimension (v : option Q) : option Q :=
  match v with
  | Some x => if JsMath.gt x 0 then Some (JsMath.floor x) else None
  | None => None
  end.

(** An optional number in a condition: [undefined] and 0 are false. *)
Definition truthy (v : option Q) : bool :=
  match v with
  | Some x => JsMath.truthy x
  | None => false
  end.

(** [if (width || height) image = image.resize({...})] *)
Definition resizeStep (p : NodeParameters) : list sharp.Call :=
  let width := dimension (width (resize p)) in
  let height := dimension (height (resize p)) in
  let maintainAspectRatio :=
    match maintainAspectRatio (resize p) with
    | Some false => false
    | _ => true
    end in
  if truthy width || truthy height
  then [sharp.resize
          {| sharp.width := width;
             sharp.height := height;
             sharp.fit :=
               if maintainAspectRatio then sharp.inside else sharp.fill;
             sharp.withoutEnlargement := true |}]
  else [].

(** [if (!stripMetadata) image = image.withMetadata()] *)
Definition metadataStep (p : NodeParameters) : list sharp.Call :=
  if negb (stripMetadata p) then [sharp.withMetadata] else [].

(** [switch (format)] *)
Definition encodeStep (p : NodeParameters) : list sharp.Call :=
  let quality := clamp (quality p) 0 100 in
  if (format p =? "jpg")%string then [sharp.jpeg quality true]
  else if (format p =? "png")%string
  then [sharp.png (pngCompressionLevelFromQuality quality) true]
  else if (format p =? "webp")%string then [sharp.webp quality]
  else if (format p =? "avif")%string then [sharp.avif quality]
  else [].

(** The calls between [sharp(inputBuffer)] and [toBuffer()]. *)
Definition image (p : NodeParameters) : list sharp.Call :=
  [sharp.rotate] ++ resizeStep p ++ metadataStep p ++ encodeStep p.

Definition maxBytes (maxInputSizeMb : Q) : Q :=
  (JsMath.max 1 (JsMath.floor maxInputSizeMb) * 1024 * 1024)%Q.

(** The size guard: [if (originalSize > maxBytes) throw ...]. *)
Definition sizeGuard (originalSize maxInputSizeMb : Q) : Result unit :=
  let maxBytes := maxBytes maxInputSizeMb in
  if JsMath.gt originalSize maxBytes
  then Throw ("Input image is too large (" ++ Number_toString originalSize
              ++ " bytes). Max allowed is " ++ Number_toString maxBytes
              ++ " bytes.")%string
  else Ok tt.

Definition percentReduction (originalSize newSize : Q) : Q :=
  if JsMath.gt originalSize 0
  then (((originalSize - newSize) / originalSize) * 100)%Q
  else 0%Q.

(** [originalFileName ? path.parse(originalFileName).name : 'image']: the
    empty string counts as absent. *)
Definition baseName (originalFileName : option string) : string :=
  match originalFileName with
  | Some (String c s) => path.parse_name (String c s)
  | _ => "image"
  end.

Definition outFileName (originalFileName : option string) (format : string)
  : string :=
  (baseName originalFileName ++ "." ++ ext (getMimeAndExt format))%string.

(** The input buffer and the source file name of record [i].  In binary
    mode [items[i].binary?.[binaryPropertyName]] is a property read: a name
    inherited from [Object.prototype] passes the test [!binaryData] and has
    no [fileName].  In base64 mode an inherited name gives a function or an
    object, never a string, so the own properties decide. *)
Definition resolveInput (p : NodeParameters) (i : nat) (item : Item)
  : Result (Buffer * option string) :=
  if (inputSource p =? "binary")%string then
    match binary item with
    | None =>
        Throw ("No binary data found under property " ++ dquote
               ++ binaryPropertyName p ++ dquote)%string
    | Some slots =>
        match getProperty slots (binaryPropertyName p) with
        | NoProperty =>
            Throw ("No binary data found under property " ++ dquote
                   ++ binaryPropertyName p ++ dquote)%string
        | OwnProperty binaryData =>
            let! inputBuffer :=
              getBinaryDataBuffer host i (binaryPropertyName p) in
            Ok (inputBuffer, fileName binaryData)
        | InheritedProperty =>
            let! inputBuffer :=
              getBinaryDataBuffer host i (binaryPropertyName p) in
            Ok (inputBuffer, None)
        end
    end
  else
    match json item !! base64FieldName p with
    | Some (JString (String c s)) =>
        let cleaned := replace_data_uri_prefix (String c s) in
        Ok (Buffer_from_base64 host cleaned, Some "input"%string)
    | _ =>
        Throw ("Field " ++ dquote ++ base64FieldName p ++ dquote
               ++ " must contain a Base64 string")%string
    end.

Definition compression (originalSize newSize : Q) (format : string)
  : JsonValue :=
  JObject (list_to_map
    [("originalSize"%string, JNumber originalSize);
     ("newSize"%string, JNumber newSize);
     ("percentReduction"%string,
        JNumber (percentReduction originalSize newSize));
     ("format"%string, JString format)]).

(** The body of the [try] block for record [i]. *)
Definition processItem (i : nat) (item : Item) : Result Item :=
  let p := getNodeParameter host i in
  let! (inputBuffer, originalFileName) := resolveInput p i item in
  let originalSize := byteLength inputBuffer in
  let! _ := sizeGuard originalSize (maxInputSizeMb p) in
  let! outputBuffer := toBuffer host inputBuffer (image p) in
  let newSize := byteLength outputBuffer in
  let! binaryOut :=
    prepareBinaryData host outputBuffer
      (outFileName originalFileName (format p))
      (mime (getMimeAndExt (format p))) in
  Ok {| json := <["compression"%string :=
                    compression originalSize newSize (format p)]> (json item);
        binary := Some (<[outputBinaryPropertyName p := binaryOut]>
                          (default ∅ (binary item))) |}.

(** The record pushed by the [catch] block when [continueOnFail()]; its
    binary map is the one of the input record (the same object). *)
Definition errorItem (message : string) (item : Item) : Item :=
  {| json := {["error"%string := JString message]};
     binary := binary item |}.

(** How [execute] ends: it returns [[returnData]] or rejects with the
    error of a record. *)
Inductive Completion :=
| Returned (output : list (list Item))
| Thrown (message : string).

(** The state of the loop when it stops: the loop variable, the local
    array [returnData], and the completion. *)
Record Final := {
  final_i : nat;
  final_returnData : list Item;
  completion : Completion
}.

(** [for (let i = 0; i < items.length; i++)], from index [i] on; [rest] is
    [items.slice(i)]. *)
Fixpoint loop (rest : list Item) (i : nat) (returnData : list Item) : Final :=
  match rest with
  | [] =>
      {| final_i := i; final_returnData := returnData;
         completion := Returned [returnData] |}
  | item :: rest' =>
      match processItem i item with
      | Ok newItem => loop rest' (S i) (returnData ++ [newItem])
      | Throw message =>
          if continueOnFail host
          then loop rest' (S i) (returnData ++ [errorItem message item])
          else {| final_i := i; final_returnData := returnData;
                  completion := Thrown message |}
      end
  end.

Definition execute (items : list Item) : Completion :=
  completion (loop items 0%nat []).

End Node.

(** ** Vocabulary of the specification *)

(** The message of the size guard for [n] bytes against [limit] bytes. *)
Definition tooLarge (n limit : Z) : string :=
  ("Input image is too large (" ++ NilZero.string_of_int (Z.to_int n)
   ++ " bytes). Max allowed is " ++ NilZero.string_of_int (Z.to_int limit)
   ++ " bytes.")%string.

(** The message for a record without the binary property [name]. *)
Definition noBinaryData (name : string) : string :=
  ("No binary data found under property " ++ dquote ++ name ++ dquote)%string.

(** The record has no property [name] in its binary data, own or
    inherited: it has no binary data, or the name is neither a key of it nor
    a name of [Object.prototype]. *)
Definition binary_property_absent (item : Item) (name : string) : Prop :=
  match binary item with
  | None => True
  | Some slots => slots !! name = None /\ ~ In name Object_prototype
  end.

(** The property [name] of the binary data is inherited only. *)
Definition binary_property_inherited (item : Item) (name : string) : Prop :=
  exists slots,
    binary item = Some slots /\ slots !! name = None /\
    In name Object_prototype.

(** The file name the binary property [name] of the record carries: the
    one of its own property, none when the property is inherited. *)
Definition sourceFileName (item : Item) (name : string) : option string :=
  match binary item ≫= (fun slots => slots !! name) with
  | Some binaryData => fileName binaryData
  | None => None
  end.

(** A path up to and including a separator, or nothing: what may stand
    before the last component of a file name. *)
Definition directory_prefix (dir : string) : Prop :=
  dir = EmptyString \/ exists d : string, dir = (d ++ "/")%string.

(** A dimension that is a positive number, and one that is at least 1. *)
Definition positive_number (v : option Q) : Prop :=
  exists x, v = Some x /\ (0 < x)%Q.

Definition at_least_one (v : option Q) : Prop :=
  exists x, v = Some x /\ (1 <= x)%Q.

(** The fit the node asks for: [maintainAspectRatio !== false]. *)
Definition fit_of (maintainAspectRatio : option bool) : sharp.Fit :=
  match maintainAspectRatio with
  | Some false => sharp.fill
  | _ => sharp.inside
  end.

Definition is_resize (c : sharp.Call) : bool :=
  match c with
  | sharp.resize _ => true
  | _ => false
  end.

(** The character [c] does not occur in [s]. *)
Definition no_char (c : ascii) (s : string) : Prop :=
  ~ In c (list_ascii_of_string s).

(** The mime part of a data URI: not empty, without [;]. *)
Definition mime_token (m : string) : Prop :=
  m <> EmptyString /\ no_char ";" m.

(** What the loop pushes for record [i] when failures are tolerated. *)
Definition recordOutput (host : Host) (i : nat) (item : Item) : Item :=
  match processItem host i item with
  | Ok newItem => newItem
  | Throw message => errorItem message item
  end.

(** Two contexts that answer alike for the records up to index [k]. *)
Definition hosts_agree_upto (k : nat) (h1 h2 : Host) : Prop :=
  continueOnFail h1 = continueOnFail h2
  /\ (forall i, (i <= k)%nat -> getNodeParameter h1 i = getNodeParameter h2 i)
  /\ (forall i name, (i <= k)%nat ->
        getBinaryDataBuffer h1 i name = getBinaryDataBuffer h2 i name)
  /\ (forall buffer name mimeType,
        prepareBinaryData h1 buffer name mimeType
        = prepareBinaryData h2 buffer name mimeType)
  /\ (forall s, Buffer_from_base64 h1 s = Buffer_from_base64 h2 s)
  /\ (forall input calls, toBuffer h1 input calls = toBuffer h2 input calls).

(** The formats the node offers. *)
Definition target_formats : list string :=
  ["jpg"; "png"; "webp"; "avif"]%string.

(** The message for a record whose base64 field [name] is unusable. *)
Definition noBase64String (name : string) : string :=
  ("Field " ++ dquote ++ name ++ dquote
   ++ " must contain a Base64 string")%string.

(** The format names [getMimeAndExt] knows. *)
Definition known_formats : list string :=
  ["jpg"; "jpeg"; "png"; "webp"; "avif"]%string.

Definition is_encoder (c : sharp.Call) : bool :=
  match c with
  | sharp.jpeg _ _ | sharp.png _ _ | sharp.webp _ | sharp.avif _ => true
  | _ => false
  end.

Definition is_withMetadata (c : sharp.Call) : bool :=
  match c with
  | sharp.withMetadata => true
  | _ => false
  end.

(** The mime type of what an encoder call produces. *)
Definition encoder_mime (c : sharp.Call) : option string :=
  match c with
  | sharp.jpeg _ _ => Some "image/jpeg"%string
  | sharp.png _ _ => Some "image/png"%string
  | sharp.webp _ => Some "image/webp"%string
  | sharp.avif _ => Some "image/avif"%string
  | _ => None
  end.

(** The names of the fields of the compression summary. *)
Definition summary_fields : gset string :=
  {["originalSize"; "newSize"; "percentReduction"; "format"]}%string.

(** What the node may hand to an encoder for the quality parameter
    [quality]: a quality within [0,100], the parameter itself when it is
    within these bounds, with mozjpeg for JPEG; for PNG a whole level
    between 0 and 9, with a palette. *)
Definition encoder_options_ok (quality : Q) (c : sharp.Call) : Prop :=
  match c with
  | sharp.jpeg q mozjpeg =>
      (0 <= q <= 100)%Q /\ ((0 <= quality <= 100)%Q -> q = quality)
      /\ mozjpeg = true
  | sharp.webp q | sharp.avif q =>
      (0 <= q <= 100)%Q /\ ((0 <= quality <= 100)%Q -> q = quality)
  | sharp.png level palette =>
      (exists n : Z, level = inject_Z n /\ 0 <= n <= 9) /\ palette = true
  | _ => True
  end.

(** The dimension [d] handed to resize for the parameter [v]: nothing when
    the parameter is absent or not positive, otherwise its integer part. *)
Definition dimension_ok (v d : option Q) : Prop :=
  match d with
  | None => ~ positive_number v
  | Some y =>
      exists (x : Q) (n : Z),
        v = Some x /\ (0 < x)%Q /\ y = inject_Z n /\ 0 <= n /\
        (inject_Z n <= x)%Q /\ (x < inject_Z n + 1)%Q
  end.

(** ** A reference context

    The defaults of the node description, and a context that keeps binary
    payloads in the records (base64), stores what it is given and whose
    codec hands a non-empty input back unchanged.  The examples and the
    concrete runs below use it. *)

Definition defaultParameters : NodeParameters :=
  {| inputSource := "binary";
     binaryPropertyName := "data";
     base64FieldName := "imageBase64";
     outputBinaryPropertyName := "data";
     format := "jpg";
     stripMetadata := true;
     quality := 80;
     resize := {| width := None; height := None; maintainAspectRatio := None |};
     maxInputSizeMb := 25 |}.

Definition withResize (r : ResizeParameter) : NodeParameters :=
  {| inputSource := inputSource defaultParameters;
     binaryPropertyName := binaryPropertyName defaultParameters;
     base64FieldName := base64FieldName defaultParameters;
     outputBinaryPropertyName := outputBinaryPropertyName defaultParameters;
     format := format defaultParameters;
     stripMetadata := stripMetadata defaultParameters;
     quality := quality defaultParameters;
     resize := r;
     maxInputSizeMb := maxInputSizeMb defaultParameters |}.

(** Half a pixel of width, no height. *)
Definition halfPixelWidth : NodeParameters :=
  withResize {| width := Some (1 # 2); height := None;
                maintainAspectRatio := None |}.

(** A width of 800 pixels, aspect ratio not maintained. *)
Definition width800Fill : NodeParameters :=
  withResize {| width := Some 800%Q; height := None;
                maintainAspectRatio := Some false |}.

(** The defaults, reading the image from the JSON field. *)
Definition base64Parameters : NodeParameters :=
  {| inputSource := "base64";
     binaryPropertyName := binaryPropertyName defaultParameters;
     base64FieldName := base64FieldName defaultParameters;
     outputBinaryPropertyName := outputBinaryPropertyName defaultParameters;
     format := format defaultParameters;
     stripMetadata := stripMetadata defaultParameters;
     quality := quality defaultParameters;
     resize := resize defaultParameters;
     maxInputSizeMb := maxInputSizeMb defaultParameters |}.

(** The defaults, reading the binary property [toString]: a name no record
    holds and every object inherits. *)
Definition inheritedNameParameters : NodeParameters :=
  {| inputSource := inputSource defaultParameters;
     binaryPropertyName := "toString";
     base64FieldName := base64FieldName defaultParameters;
     outputBinaryPropertyName := outputBinaryPropertyName defaultParameters;
     format := format defaultParameters;
     stripMetadata := stripMetadata defaultParameters;
     quality := quality defaultParameters;
     resize := resize defaultParameters;
     maxInputSizeMb := maxInputSizeMb defaultParameters |}.

Definition referenceHost (parameters : nat -> NodeParameters)
  (items : list Item) (continue : bool) : Host :=
  {| getNodeParameter := parameters;
     getBinaryDataBuffer := fun i name =>
       match items !! i with
       | Some item =>
           match binary item ≫= (fun b => b !! name) with
           | Some binaryData => Ok (Base64.decode (data binaryData))
           | None => Throw "The item has no binary field"
           end
       | None => Throw "The item does not exist"
       end;
     prepareBinaryData := fun buffer name mimeType =>
       Ok {| data := "stored"; mimeType := mimeType; fileName := Some name |};
     continueOnFail := continue;
     Buffer_from_base64 := Base64.decode;
     toBuffer := fun input calls =>
       match input with
       | [] => Throw "Input Buffer is empty"
       | _ :: _ => Ok input
       end |}.

(** A context with a maximum of 1 MB whose binary payloads are one byte
    longer than that. *)
Definition oneMegabyte : NodeParameters :=
  {| inputSource := inputSource defaultParameters;
     binaryPropertyName := binaryPropertyName defaultParameters;
     base64FieldName := base64FieldName defaultParameters;
     outputBinaryPropertyName := outputBinaryPropertyName defaultParameters;
     format := format defaultParameters;
     stripMetadata := stripMetadata defaultParameters;
     quality := quality defaultParameters;
     resize := resize defaultParameters;
     maxInputSizeMb := 1 |}.

Definition largeInput : Buffer := repeat x00 (N.to_nat 1048577).

Definition largeInputHost : Host :=
  {| getNodeParameter := fun _ => oneMegabyte;
     getBinaryDataBuffer := fun _ _ => Ok largeInput;
     prepareBinaryData := fun _ name mimeType =>
       Ok {| data := "stored"; mimeType := mimeType; fileName := Some name |};
     continueOnFail := false;
     Buffer_from_base64 := Base64.decode;
     toBuffer := fun input _ => Ok input |}.

(** The reference context in base64 mode. *)
Definition base64Host : Host :=
  referenceHost (fun _ => base64Parameters) [] false.

Definition binaryItem (name data : string) (fileName : option string) : Item :=
  {| json := ∅;
     binary := Some {[name := {| data := data; mimeType := "image/png";
                                 fileName := fileName |}]} |}.

Definition base64Item (field value : string) : Item :=
  {| json := {[field := JString value]}; binary := None |}.

(** A batch of three records; the second has its payload under another
    property than the one the node reads. *)
Definition record1 : Item :=
  binaryItem "data" "aGVsbG8=" (Some "photo.tiff"%string).

Definition record2 : Item :=
  {| json := {["id"%string := JNumber 2]};
     binary := Some {["attachment"%string :=
                       {| data := "AAAA"; mimeType := "image/png";
                          fileName := Some "scan.png"%string |}]} |}.

Definition record3 : Item := binaryItem "data" "AAAA" None.

Definition batch : list Item := [record1; record2; record3].

(** The two records of the batch that can be processed, and a strict
    context for them. *)
Definition goodBatch : list Item := [record1; record3].

Definition goodHost : Host :=
  referenceHost (fun _ => defaultParameters) goodBatch false.

Definition tolerantHost : Host :=
  referenceHost (fun _ => defaultParameters) batch true.

Definition strictHost : Host :=
  referenceHost (fun _ => defaultParameters) batch false.

(** The strict context reading the inherited name. *)
Definition inheritedNameHost : Host :=
  referenceHost (fun _ => inheritedNameParameters) batch false.

(** The same context as [strictHost] up to record 2, with other parameters
    from record 3 on. *)
Definition strictHostOtherTail : Host :=
  referenceHost (fun i => if (i <=? 1)%nat then defaultParameters
                          else base64Parameters) batch false.

(** ** Arithmetic lemmas *)

(** Moves [inject_Z] to the variables of an integer expression in [H]. *)
Ltac push_inject_Z H :=
  unfold Z.sub in H;
  repeat (rewrite inject_Z_plus in H || rewrite inject_Z_mult in H
          || rewrite inject_Z_opp in H);
  repeat match type of H with
         | context [inject_Z (Zpos ?c)] =>
             change (inject_Z (Zpos c)) with (Zpos c # 1)%Q in H
         end.

Section Rounding.

Lemma Qfloor_unique (x : Q) (n : Z) :
  (inject_Z n <= x)%Q -> (x < inject_Z (n + 1))%Q -> Qfloor x = n.
Proof.
  intros Hlo Hhi.
  pose proof (Qfloor_le x) as Hf.
  pose proof (Qlt_floor x) as Hc.
  assert (Hn1 : (inject_Z n < inject_Z (Qfloor x + 1))%Q)
    by (eapply Qle_lt_trans; eauto).
  assert (Hn2 : (inject_Z (Qfloor x) < inject_Z (n + 1))%Q)
    by (eapply Qle_lt_trans; eauto).
  rewrite <- Zlt_Qlt in Hn1, Hn2. lia.
Qed.

Lemma round_nearest (x : Q) :
  exists y, JsMath.round x = inject_Z y /\ nearest_half_up x y.
Proof.
  exists (Qfloor (x + (1 # 2))). split; [reflexivity|].
  pose proof (Qfloor_le (x + (1 # 2))) as Hf.
  pose proof (Qlt_floor (x + (1 # 2))) as Hc.
  rewrite inject_Z_plus in Hc. change (inject_Z 1) with 1%Q in Hc.
  unfold nearest_half_up. split; lra.
Qed.

Lemma nearest_half_up_round (x : Q) (y : Z) :
  nearest_half_up x y -> JsMath.round x = inject_Z y.
Proof.
  intros [Hlo Hhi]. unfold JsMath.round. f_equal.
  apply Qfloor_unique.
  - lra.
  - rewrite inject_Z_plus. change (inject_Z 1) with 1%Q. lra.
Qed.

Lemma clamp_inject_Z (z lo hi : Z) :
  clamp (inject_Z z) (inject_Z lo) (inject_Z hi) = inject_Z (clampZ z lo hi).
Proof.
  unfold clamp, clampZ, JsMath.min, JsMath.max, Qmax, Qmin,
    GenericMinMax.gmax, GenericMinMax.gmin, Z.max, Z.min.
  assert (Hc : forall a b, (inject_Z a ?= inject_Z b)%Q = (a ?= b)).
  { intros a b. unfold Qcompare. simpl. now rewrite !Z.mul_1_r. }
  rewrite Hc. destruct (z ?= lo); rewrite Hc; destruct (_ ?= hi); reflexivity.
Qed.

Lemma clampZ_bounds (z lo hi : Z) : lo <= hi -> lo <= clampZ z lo hi <= hi.
Proof. unfold clampZ. lia. Qed.

Lemma clampZ_id (z lo hi : Z) : lo <= z <= hi -> clampZ z lo hi = z.
Proof. unfold clampZ. lia. Qed.

End Rounding.

Section QualityMapper.

Lemma round_inject_Z (z : Z) : JsMath.round (inject_Z z) = inject_Z z.
Proof. apply nearest_half_up_round. split; lra. Qed.

(** On an integer quality the division by 100 followed by [Math.round] is
    the integer division of [(100 - q) * 9 + 50] by 100. *)
Lemma level_nearest (q : Z) :
  nearest_half_up (((100 - inject_Z q) * 9) / 100)%Q (((100 - q) * 9 + 50) / 100).
Proof.
  set (k := (100 - q) * 9).
  set (n := (k + 50) / 100).
  assert (Hlo : 100 * n <= k + 50) by (apply Z.mul_div_le; lia).
  assert (Hhi : k + 50 < 100 * (n + 1)).
  { unfold n. rewrite Z.mul_add_distr_l, Z.mul_1_r.
    pose proof (Z.mod_pos_bound (k + 50) 100 ltac:(lia)) as Hm.
    rewrite (Z.div_mod (k + 50) 100) at 1 by lia. lia. }
  rewrite Zle_Qle in Hlo. rewrite Zlt_Qlt in Hhi. unfold k in Hlo, Hhi.
  clearbody n. clear k.
  push_inject_Z Hlo. push_inject_Z Hhi.
  unfold Qdiv. change (/ 100)%Q with (1 # 100)%Q.
  split; lra.
Qed.

Lemma png_level_of_int (q : Z) :
  0 <= q <= 100 ->
  pngCompressionLevelFromQuality (inject_Z q)
  = inject_Z (((100 - q) * 9 + 50) / 100).
Proof.
  intros Hq. unfold pngCompressionLevelFromQuality.
  rewrite round_inject_Z.
  change (clamp (inject_Z q) 0 100)
    with (clamp (inject_Z q) (inject_Z 0) (inject_Z 100)).
  rewrite clamp_inject_Z, (clampZ_id q) by lia.
  rewrite (nearest_half_up_round _ _ (level_nearest q)).
  change (clamp ?x 0 9) with (clamp x (inject_Z 0) (inject_Z 9)).
  rewrite clamp_inject_Z. f_equal. apply clampZ_id.
  split.
  - apply Z.div_pos; lia.
  - enough (((100 - q) * 9 + 50) / 100 < 10) by lia.
    apply Z.div_lt_upper_bound; lia.
Qed.

Lemma clamp_round (quality : Q) :
  clamp (JsMath.round quality) 0 100
  = inject_Z (clampZ (Qfloor (quality + (1 # 2))) 0 100).
Proof. exact (clamp_inject_Z _ 0 100). Qed.

Lemma clamp_quality_id (q : Z) :
  0 <= q <= 100 -> clamp (inject_Z q) 0 100 = inject_Z q.
Proof.
  intros Hq. etransitivity; [exact (clamp_inject_Z q 0 100)|].
  now rewrite clampZ_id.
Qed.

(** Whatever finite number comes in, the mapper works on the integer
    quality [clampZ (round quality) 0 100]. *)
Lemma png_level_of_number (quality : Q) :
  pngCompressionLevelFromQuality quality
  = pngCompressionLevelFromQuality
      (inject_Z (clampZ (Qfloor (quality + (1 # 2))) 0 100)).
Proof.
  unfold pngCompressionLevelFromQuality.
  rewrite round_inject_Z, clamp_round, clamp_quality_id; [reflexivity|].
  apply clampZ_bounds. lia.
Qed.

(** The mapper does not depend on how the number is written as a
    fraction. *)
Lemma clamp_Qeq (x y lo hi : Q) :
  (x == y)%Q -> (clamp x lo hi == clamp y lo hi)%Q.
Proof. intros H. unfold clamp, JsMath.min, JsMath.max. now rewrite H. Qed.

Lemma png_level_Qeq (x y : Q) :
  (x == y)%Q ->
  pngCompressionLevelFromQuality x = pngCompressionLevelFromQuality y.
Proof.
  intros H. rewrite (png_level_of_number x), (png_level_of_number y).
  now rewrite H.
Qed.

(** A higher quality never gives a higher level. *)
Lemma png_level_antitone (q1 q2 : Z) :
  0 <= q1 <= q2 -> q2 <= 100 ->
  (pngCompressionLevelFromQuality (inject_Z q2)
   <= pngCompressionLevelFromQuality (inject_Z q1))%Q.
Proof.
  intros H1 H2. rewrite !png_level_of_int by lia.
  rewrite <- Zle_Qle. apply Z.div_le_mono; lia.
Qed.

End QualityMapper.

(** ** The PNG level mapping *)

Section PngLevel.

Lemma image_png_last (p : NodeParameters) :
  format p = "png"%string ->
  exists calls,
    image p = calls ++ [sharp.png
      (pngCompressionLevelFromQuality (clamp (quality p) 0 100)) true].
Proof.
  intros Hf. exists ([sharp.rotate] ++ resizeStep p ++ metadataStep p).
  unfold image, encodeStep. rewrite Hf. cbn [String.eqb Ascii.eqb Bool.eqb].
  now rewrite <- !app_assoc.
Qed.

(** The double division by 100 may be off by less than 1/100 without
    changing the level, except at the tie of quality 50, where
    [(100 - 50) * 9 / 100 = 4.5] is exact in binary. *)
Lemma png_level_rounding_stable (q : Z) (y : Q) :
  0 <= q <= 100 -> q <> 50 ->
  (Qabs (y - ((100 - inject_Z q) * 9) / 100) < 1 # 100)%Q ->
  JsMath.round y = JsMath.round (((100 - inject_Z q) * 9) / 100).
Proof.
  intros Hq Hne Hy.
  rewrite (nearest_half_up_round _ _ (level_nearest q)).
  apply nearest_half_up_round.
  apply Qabs_Qlt_condition in Hy. destruct Hy as [Hy1 Hy2].
  set (k := (100 - q) * 9) in *.
  set (n := (k + 50) / 100).
  pose proof (Z.div_mod (k + 50) 100 ltac:(lia)) as Hdm. fold n in Hdm.
  pose proof (Z.mod_pos_bound (k + 50) 100 ltac:(lia)) as Hm.
  assert (Hr : (k + 50) mod 100 <> 0).
  { intros H0. rewrite H0 in Hdm. unfold k in Hdm. lia. }
  assert (Hlo : 100 * n + 1 <= k + 50) by lia.
  assert (Hhi : k + 50 <= 100 * n + 99) by lia.
  rewrite Zle_Qle in Hlo, Hhi. unfold k in Hlo, Hhi.
  clearbody n. clear Hdm Hm Hr k.
  push_inject_Z Hlo. push_inject_Z Hhi.
  unfold Qdiv in *. change (/ 100)%Q with (1 # 100)%Q in *.
  split; lra.
Qed.

(** C1. For every integer quality q in [0,100] the level handed to the
    PNG encoder is the integer nearest to (100 - q) * 9 / 100, a tie going
    up, clamped to [0,9] (the clamp changes nothing there); quality 100
    gives 0, 80 gives 2, 50 gives 5 and 0 gives 9. *)
Theorem png_level_of_integer_quality (q : Z) (Hq : 0 <= q <= 100) :
  (exists level : Z,
     nearest_half_up (((100 - inject_Z q) * 9) / 100)%Q level /\
     pngCompressionLevelFromQuality (inject_Z q) = inject_Z (clampZ level 0 9) /\
     clampZ level 0 9 = level /\
     forall p : NodeParameters,
       format p = "png"%string -> (quality p == inject_Z q)%Q ->
       exists calls,
         image p = calls ++ [sharp.png (inject_Z (clampZ level 0 9)) true])
  /\ pngCompressionLevelFromQuality 100 = 0%Q
  /\ pngCompressionLevelFromQuality 80 = 2%Q
  /\ pngCompressionLevelFromQuality 50 = 5%Q
  /\ pngCompressionLevelFromQuality 0 = 9%Q.
Proof.
  split; [|repeat split; reflexivity].
  exists (((100 - q) * 9 + 50) / 100).
  assert (Hid : clampZ (((100 - q) * 9 + 50) / 100) 0 9
                = ((100 - q) * 9 + 50) / 100).
  { apply clampZ_id. split; [apply Z.div_pos; lia|].
    enough (((100 - q) * 9 + 50) / 100 < 10) by lia.
    apply Z.div_lt_upper_bound; lia. }
  split; [apply level_nearest|].
  rewrite Hid. split; [now apply png_level_of_int|].
  split; [reflexivity|].
  intros p Hf Hp. destruct (image_png_last p Hf) as [calls Hc].
  exists calls. rewrite Hc.
  rewrite (png_level_Qeq _ (inject_Z q)).
  - now rewrite png_level_of_int.
  - rewrite (clamp_Qeq _ _ 0 100 Hp). now rewrite clamp_quality_id.
Qed.

Lemma png_level_of_integer_quality_witness :
  (exists level : Z,
     nearest_half_up (((100 - inject_Z 80) * 9) / 100)%Q level /\
     pngCompressionLevelFromQuality (inject_Z 80) = inject_Z (clampZ level 0 9) /\
     clampZ level 0 9 = level /\
     forall p : NodeParameters,
       format p = "png"%string -> (quality p == inject_Z 80)%Q ->
       exists calls,
         image p = calls ++ [sharp.png (inject_Z (clampZ level 0 9)) true])
  /\ pngCompressionLevelFromQuality 100 = 0%Q
  /\ pngCompressionLevelFromQuality 80 = 2%Q
  /\ pngCompressionLevelFromQuality 50 = 5%Q
  /\ pngCompressionLevelFromQuality 0 = 9%Q.
Proof. apply (png_level_of_integer_quality 80). lia. Defined.

(** C10. The mapper is defined on every finite number: it works on the
    input rounded to the nearest integer and clamped to [0,100], and its
    result is an integer between 0 and 9. *)
Theorem png_level_total (quality : Q) :
  exists r q level : Z,
    nearest_half_up quality r /\
    q = clampZ r 0 100 /\ 0 <= q <= 100 /\
    pngCompressionLevelFromQuality quality
    = pngCompressionLevelFromQuality (inject_Z q) /\
    pngCompressionLevelFromQuality quality = inject_Z level /\
    0 <= level <= 9.
Proof.
  destruct (round_nearest quality) as [r [Hr Hn]].
  assert (Hrf : r = Qfloor (quality + (1 # 2))).
  { unfold JsMath.round in Hr. now injection Hr. }
  set (q := clampZ r 0 100).
  assert (Hq : 0 <= q <= 100) by (apply clampZ_bounds; lia).
  assert (Hx : pngCompressionLevelFromQuality quality
               = pngCompressionLevelFromQuality (inject_Z q)).
  { rewrite png_level_of_number. now rewrite <- Hrf. }
  exists r, q, (((100 - q) * 9 + 50) / 100).
  split; [exact Hn|]. split; [reflexivity|]. split; [exact Hq|].
  split; [exact Hx|]. split.
  - rewrite Hx. now apply png_level_of_int.
  - split; [apply Z.div_pos; lia|].
    enough (((100 - q) * 9 + 50) / 100 < 10) by lia.
    apply Z.div_lt_upper_bound; lia.
Qed.

End PngLevel.

(** ** One record *)

Section Record.

Variable host : Host.

(** What a successful run of the [try] block went through. *)
Lemma processItem_Ok (i : nat) (item newItem : Item) :
  processItem host i item = Ok newItem ->
  let p := getNodeParameter host i in
  exists inputBuffer originalFileName outputBuffer binaryOut,
    resolveInput host p i item = Ok (inputBuffer, originalFileName) /\
    sizeGuard (byteLength inputBuffer) (maxInputSizeMb p) = Ok tt /\
    toBuffer host inputBuffer (image p) = Ok outputBuffer /\
    prepareBinaryData host outputBuffer
      (outFileName originalFileName (format p))
      (mime (getMimeAndExt (format p))) = Ok binaryOut /\
    newItem =
      {| json := <["compression"%string :=
                    compression (byteLength inputBuffer)
                      (byteLength outputBuffer) (format p)]> (json item);
         binary := Some (<[outputBinaryPropertyName p := binaryOut]>
                           (default ∅ (binary item))) |}.
Proof.
  intros H p. unfold processItem in H. cbv zeta in H. fold p in H.
  destruct (resolveInput host p i item) as [[inputBuffer name]|] eqn:Hin;
    cbn [bind] in H; [|discriminate].
  destruct (sizeGuard _ (maxInputSizeMb p)) as [[]|] eqn:Hg;
    cbn [bind] in H; [|discriminate].
  destruct (toBuffer host inputBuffer (image p)) as [outputBuffer|] eqn:Hc;
    cbn [bind] in H; [|discriminate].
  destruct (prepareBinaryData host outputBuffer _ _) as [binaryOut|] eqn:Hp;
    cbn [bind] in H; [|discriminate].
  exists inputBuffer, name, outputBuffer, binaryOut.
  injection H as <-. auto.
Qed.

End Record.

(** ** The reference batch *)

Section ReferenceBatch.

Lemma record1_ok (continue : bool) :
  processItem (referenceHost (fun _ => defaultParameters) batch continue)
    0 record1
  = Ok (recordOutput
          (referenceHost (fun _ => defaultParameters) batch continue)
          0 record1).
Proof. destruct continue; vm_compute; reflexivity. Qed.

Lemma record2_fails (continue : bool) :
  processItem (referenceHost (fun _ => defaultParameters) batch continue)
    1 record2
  = Throw (noBinaryData "data").
Proof. destruct continue; vm_compute; reflexivity. Qed.

Lemma record3_ok (continue : bool) :
  processItem (referenceHost (fun _ => defaultParameters) batch continue)
    2 record3
  = Ok (recordOutput
          (referenceHost (fun _ => defaultParameters) batch continue)
          2 record3).
Proof. destruct continue; vm_compute; reflexivity. Qed.

Lemma strict_hosts_agree : hosts_agree_upto 1 strictHost strictHostOtherTail.
Proof.
  unfold hosts_agree_upto. split; [reflexivity|]. split.
  - intros [|[|i]] Hi; [reflexivity|reflexivity|lia].
  - repeat split; reflexivity.
Qed.

End ReferenceBatch.

(** ** The size guard *)

Section SizeGuard.

Lemma gt_true (x y : Q) : JsMath.gt x y = true <-> (y < x)%Q.
Proof.
  unfold JsMath.gt. rewrite negb_true_iff, <- not_true_iff_false, Qle_bool_iff.
  split; [apply Qnot_le_lt | apply Qlt_not_le].
Qed.

Lemma gt_false (x y : Q) : JsMath.gt x y = false <-> (x <= y)%Q.
Proof. unfold JsMath.gt. now rewrite negb_false_iff, Qle_bool_iff. Qed.

Lemma max_inject_Z (a b : Z) :
  JsMath.max (inject_Z a) (inject_Z b) = inject_Z (Z.max a b).
Proof.
  unfold JsMath.max, Qmax, GenericMinMax.gmax, Z.max, Qcompare. simpl.
  rewrite !Z.mul_1_r. now destruct (a ?= b).
Qed.

Lemma maxBytes_integer (m : Q) :
  maxBytes m = inject_Z (Z.max 1 (Qfloor m) * 1024 * 1024).
Proof.
  unfold maxBytes, JsMath.floor. change 1%Q with (inject_Z 1).
  rewrite max_inject_Z. reflexivity.
Qed.

Lemma sizeGuard_cases (n : Z) (m : Q) :
  let limit := Z.max 1 (Qfloor m) * 1024 * 1024 in
  (n > limit /\ sizeGuard (inject_Z n) m = Throw (tooLarge n limit))
  \/ (n <= limit /\ sizeGuard (inject_Z n) m = Ok tt).
Proof.
  intros limit. unfold sizeGuard. rewrite maxBytes_integer. fold limit.
  destruct (JsMath.gt (inject_Z n) (inject_Z limit)) eqn:Hgt.
  - left. apply gt_true in Hgt. rewrite <- Zlt_Qlt in Hgt.
    split; [lia|]. unfold tooLarge, Number_toString.
    now rewrite !Qfloor_Z.
  - right. apply gt_false in Hgt. rewrite <- Zle_Qle in Hgt. auto.
Qed.

End SizeGuard.

Section SizeGuardClaims.

Variable host : Host.

(** The guard runs before the codec: an oversized input ends the record
    with the guard's message whatever the codec would do. *)
Lemma processItem_too_large (i : nat) (item : Item)
    (inputBuffer : Buffer) (name : option string) :
  let p := getNodeParameter host i in
  let n := Z.of_nat (length inputBuffer) in
  let limit := Z.max 1 (Qfloor (maxInputSizeMb p)) * 1024 * 1024 in
  resolveInput host p i item = Ok (inputBuffer, name) ->
  n > limit ->
  processItem host i item = Throw (tooLarge n limit).
Proof.
  intros p n limit Hin Hn. unfold processItem. cbv zeta. fold p.
  rewrite Hin. cbn [bind]. unfold byteLength. fold n.
  destruct (sizeGuard_cases n (maxInputSizeMb p)) as [[_ ->]|[Hle _]].
  - reflexivity.
  - fold limit in Hle. lia.
Qed.

(** C3. For an input of n bytes and a configured maximum of m megabytes
    the guard throws its error exactly when
    n > max(1, floor(m)) * 1024 * 1024; an input of exactly that many
    bytes passes, one byte more fails; and a resolved input above the
    limit ends the record with that error. *)
Theorem size_guard_threshold (n : nat) (m : Q) :
  let limit := Z.max 1 (Qfloor m) * 1024 * 1024 in
  let size := Z.of_nat n in
  (sizeGuard (inject_Z size) m = Throw (tooLarge size limit) <-> size > limit)
  /\ (sizeGuard (inject_Z size) m = Ok tt <-> size <= limit)
  /\ sizeGuard (inject_Z limit) m = Ok tt
  /\ sizeGuard (inject_Z (limit + 1)) m = Throw (tooLarge (limit + 1) limit)
  /\ (forall (i : nat) (item : Item) (inputBuffer : Buffer) name,
        maxInputSizeMb (getNodeParameter host i) = m ->
        length inputBuffer = n ->
        resolveInput host (getNodeParameter host i) i item
        = Ok (inputBuffer, name) ->
        size > limit ->
        processItem host i item = Throw (tooLarge size limit)).
Proof.
  intros limit size.
  assert (Hcase := sizeGuard_cases size m). fold limit in Hcase.
  assert (Hat := sizeGuard_cases limit m). fold limit in Hat.
  assert (Hup := sizeGuard_cases (limit + 1) m). fold limit in Hup.
  repeat split.
  - intros H. destruct Hcase as [[Hgt _]|[_ Hok]]; [exact Hgt|congruence].
  - intros H. destruct Hcase as [[_ Hth]|[Hle _]]; [exact Hth|lia].
  - intros H. destruct Hcase as [[_ Hth]|[Hle _]]; [congruence|exact Hle].
  - intros H. destruct Hcase as [[Hgt _]|[_ Hok]]; [lia|exact Hok].
  - destruct Hat as [[Hgt _]|[_ Hok]]; [lia|exact Hok].
  - destruct Hup as [[_ Hth]|[Hle _]]; [exact Hth|lia].
  - intros i item inputBuffer name Hm Hlen Hin Hgt.
    subst size limit. rewrite <- Hm, <- Hlen in *.
    now apply processItem_too_large with (name := name).
Qed.

End SizeGuardClaims.

(** With the default maximum of 25 MB, 25 * 1024 * 1024 bytes pass and one
    more byte is refused; with a maximum of 1 MB a payload of 1048577 bytes
    ends its record with the error of the guard. *)
Lemma size_guard_threshold_witness :
  sizeGuard (inject_Z 26214400) 25 = Ok tt
  /\ sizeGuard (inject_Z 26214401) 25 = Throw (tooLarge 26214401 26214400)
  /\ (sizeGuard (inject_Z 3) 25 = Ok tt <-> 3 <= 26214400)
  /\ processItem largeInputHost 0 (binaryItem "data" "AAAA" None)
     = Throw (tooLarge 1048577 1048576).
Proof.
  pose proof (size_guard_threshold largeInputHost 3%nat 25) as H.
  pose proof (size_guard_threshold largeInputHost (N.to_nat 1048577) 1) as HL.
  cbv zeta in H, HL. destruct H as (_ & H2 & H3 & H4 & _).
  destruct HL as (_ & _ & _ & _ & HL). rewrite N_nat_Z in HL.
  split; [exact H3|]. split; [exact H4|]. split; [exact H2|].
  apply (HL 0%nat (binaryItem "data" "AAAA" None) largeInput None).
  - reflexivity.
  - apply repeat_length.
  - reflexivity.
  - reflexivity.
Defined.

(** ** The statistics *)

Section Statistics.

Lemma percentReduction_zero (newSize : Q) : percentReduction 0 newSize = 0%Q.
Proof. reflexivity. Qed.

Lemma percentReduction_pos (originalSize newSize : Q) :
  (0 < originalSize)%Q ->
  percentReduction originalSize newSize
  = (((originalSize - newSize) / originalSize) * 100)%Q.
Proof.
  intros Hpos. unfold percentReduction.
  now rewrite (proj2 (gt_true originalSize 0) Hpos).
Qed.

Lemma percentReduction_negative (originalSize newSize : Q) :
  (0 < originalSize)%Q -> (originalSize < newSize)%Q ->
  (percentReduction originalSize newSize < 0)%Q.
Proof.
  intros Hpos Hgrow. rewrite percentReduction_pos by exact Hpos.
  assert (Hinv : (0 < / originalSize)%Q) by now apply Qinv_lt_0_compat.
  assert (Hd : ((originalSize - newSize) * / originalSize
                < 0 * / originalSize)%Q)
    by (apply Qmult_lt_compat_r; [exact Hinv|lra]).
  rewrite Qmult_0_l in Hd. unfold Qdiv.
  set (d := ((originalSize - newSize) * / originalSize)%Q) in *. lra.
Qed.

(** The value 0 is also what an unchanged size gives, and what an empty
    input gives whatever the output. *)
Lemma percentReduction_same_size (size : Q) :
  (0 < size)%Q -> (percentReduction size size == 0)%Q.
Proof.
  intros Hpos. rewrite percentReduction_pos by exact Hpos.
  field. lra.
Qed.

Variable host : Host.

(** C4. The reported percentReduction is exactly 0 when originalSize is 0,
    and otherwise is (originalSize - newSize) / originalSize * 100, which
    is negative when newSize > originalSize; the sizes are the lengths of
    the input and of the encoded buffer. *)
Theorem percent_reduction_formula (originalSize newSize : nat) :
  let o := inject_Z (Z.of_nat originalSize) in
  let n := inject_Z (Z.of_nat newSize) in
  (originalSize = 0%nat -> percentReduction o n = 0%Q)
  /\ (originalSize <> 0%nat ->
      percentReduction o n = (((o - n) / o) * 100)%Q
      /\ ((originalSize < newSize)%nat -> (percentReduction o n < 0)%Q))
  /\ (forall (i : nat) (item newItem : Item),
        processItem host i item = Ok newItem ->
        exists inputBuffer outputBuffer name fields,
          resolveInput host (getNodeParameter host i) i item
          = Ok (inputBuffer, name) /\
          toBuffer host inputBuffer (image (getNodeParameter host i))
          = Ok outputBuffer /\
          json newItem !! "compression"%string = Some (JObject fields) /\
          fields !! "originalSize"%string
          = Some (JNumber (byteLength inputBuffer)) /\
          fields !! "newSize"%string
          = Some (JNumber (byteLength outputBuffer)) /\
          fields !! "percentReduction"%string
          = Some (JNumber (percentReduction (byteLength inputBuffer)
                             (byteLength outputBuffer)))).
Proof.
  intros o n. split; [|split].
  - intros ->. reflexivity.
  - intros Hne.
    assert (Hpos : (0 < o)%Q).
    { unfold o. change 0%Q with (inject_Z 0). rewrite <- Zlt_Qlt. lia. }
    split; [now apply percentReduction_pos|].
    intros Hlt. apply percentReduction_negative; [exact Hpos|].
    unfold o, n. rewrite <- Zlt_Qlt. lia.
  - intros i item newItem Hok.
    destruct (processItem_Ok host i item newItem Hok)
      as (inputBuffer & name & outputBuffer & binaryOut
          & Hin & _ & Hc & _ & ->).
    exists inputBuffer, outputBuffer, name. eexists.
    split; [exact Hin|]. split; [exact Hc|].
    cbn [json]. rewrite lookup_insert_eq. unfold compression.
    split; [reflexivity|]. repeat split; reflexivity.
Qed.

End Statistics.

(** 100 bytes in, 150 out: minus 50 percent; nothing in: 0; and the first
    record of the reference batch reports the value for its two buffers. *)
Lemma percent_reduction_formula_witness :
  percentReduction 100 150 = (((100 - 150) / 100) * 100)%Q
  /\ (percentReduction 100 150 < 0)%Q
  /\ percentReduction 0 150 = 0%Q
  /\ exists inputBuffer outputBuffer fields,
       toBuffer tolerantHost inputBuffer (image defaultParameters)
       = Ok outputBuffer /\
       json (recordOutput tolerantHost 0 record1) !! "compression"%string
       = Some (JObject fields) /\
       fields !! "percentReduction"%string
       = Some (JNumber (percentReduction (byteLength inputBuffer)
                          (byteLength outputBuffer))).
Proof.
  pose proof (percent_reduction_formula tolerantHost 100 150) as H.
  pose proof (percent_reduction_formula tolerantHost 0 150) as H0.
  cbv zeta in H, H0.
  destruct H as (_ & H & Hrep). destruct (H ltac:(lia)) as [Heq Hneg].
  destruct H0 as (H0 & _).
  split; [exact Heq|]. split; [apply Hneg; lia|]. split; [exact (H0 eq_refl)|].
  destruct (Hrep 0%nat record1 _ (record1_ok true))
    as (inputBuffer & outputBuffer & name & fields
        & _ & Hc & Hj & _ & _ & Hp).
  exists inputBuffer, outputBuffer, fields. auto.
Defined.

(** ** Resizing *)

Section Resize.

Lemma truthy_dimension (v : option Q) :
  truthy (dimension v) = true <-> at_least_one v.
Proof.
  unfold at_least_one. destruct v as [x|]; cbn [dimension].
  2:{ split; [discriminate|]. intros (x & Hx & _). discriminate. }
  destruct (JsMath.gt x 0) eqn:Hgt; cbn [truthy].
  - apply gt_true in Hgt.
    unfold JsMath.truthy, JsMath.floor.
    rewrite negb_true_iff, <- not_true_iff_false, Qeq_bool_iff.
    change 0%Q with (inject_Z 0). rewrite inject_Z_injective.
    pose proof (Qfloor_le x) as Hf. pose proof (Qlt_floor x) as Hc.
    split.
    + intros Hne. exists x. split; [reflexivity|].
      assert (Hge : 0 <= Qfloor x).
      { change 0 with (Qfloor (inject_Z 0)). rewrite Qfloor_Z.
        apply Z.lt_succ_r. rewrite Zlt_Qlt.
        eapply Qlt_trans; [exact Hgt|]. exact Hc. }
      assert (H1 : 1 <= Qfloor x) by lia.
      rewrite Zle_Qle in H1. change (inject_Z 1) with 1%Q in H1. lra.
    + intros (y & Hy & Hle). injection Hy as <-.
      apply Qfloor_resp_le in Hle. change (Qfloor 1) with 1 in Hle. lia.
  - split; [discriminate|].
    intros (y & Hy & Hle). injection Hy as <-.
    apply gt_false in Hgt. lra.
Qed.

Lemma at_least_one_positive (v : option Q) :
  at_least_one v -> positive_number v.
Proof. intros (x & Hx & Hle). exists x. split; [exact Hx|lra]. Qed.

(** The calls after the resize step never resize. *)
Lemma image_tail_no_resize (p : NodeParameters) :
  forallb (fun c => negb (is_resize c)) (metadataStep p ++ encodeStep p)
  = true.
Proof.
  unfold metadataStep, encodeStep.
  destruct (stripMetadata p); cbn [negb app];
    destruct (format p =? "jpg")%string;
    [ | destruct (format p =? "png")%string;
        [ | destruct (format p =? "webp")%string;
            [ | destruct (format p =? "avif")%string ] ] .. ];
    reflexivity.
Qed.

Lemma resizeStep_cases (p : NodeParameters) :
  let w := width (resize p) in
  let h := height (resize p) in
  ((at_least_one w \/ at_least_one h) /\
   resizeStep p =
     [sharp.resize
        {| sharp.width := dimension w;
           sharp.height := dimension h;
           sharp.fit := fit_of (maintainAspectRatio (resize p));
           sharp.withoutEnlargement := true |}])
  \/ (~ at_least_one w /\ ~ at_least_one h /\ resizeStep p = []).
Proof.
  intros w h. unfold resizeStep. cbv zeta. fold w h.
  pose proof (truthy_dimension w) as Hw.
  pose proof (truthy_dimension h) as Hh.
  destruct (truthy (dimension w)) eqn:Ew; cbn [orb].
  - left. split; [left; now apply Hw|].
    unfold fit_of. destruct (maintainAspectRatio (resize p)) as [[]|]; reflexivity.
  - destruct (truthy (dimension h)) eqn:Eh.
    + left. split; [right; now apply Hh|].
      unfold fit_of.
      destruct (maintainAspectRatio (resize p)) as [[]|]; reflexivity.
    + right. split; [|split; [|reflexivity]].
      * intros H. apply Hw in H. discriminate.
      * intros H. apply Hh in H. discriminate.
Qed.

Lemma no_resize_in (rest : list sharp.Call) (o : sharp.ResizeOptions) :
  forallb (fun c => negb (is_resize c)) rest = true ->
  ~ In (sharp.resize o) rest.
Proof.
  intros Hall Hin. rewrite forallb_forall in Hall.
  specialize (Hall _ Hin). discriminate.
Qed.

End Resize.

Section ResizeClaims.

(** C6, as the code has it.  No resize call is made when neither width nor
    height is a number of at least 1 (in particular when neither is a
    positive number); otherwise resize is called once, right after rotate,
    with the floored dimensions, fit inside unless maintainAspectRatio is
    false and fill when it is false, and withoutEnlargement set in both
    modes. *)
Theorem resize_call_policy (p : NodeParameters) :
  let w := width (resize p) in
  let h := height (resize p) in
  (~ positive_number w /\ ~ positive_number h ->
   forall o, ~ In (sharp.resize o) (image p))
  /\ (~ at_least_one w /\ ~ at_least_one h ->
      forall o, ~ In (sharp.resize o) (image p))
  /\ (at_least_one w \/ at_least_one h ->
      exists rest,
        image p =
          sharp.rotate
          :: sharp.resize
               {| sharp.width := dimension w;
                  sharp.height := dimension h;
                  sharp.fit :=
                    match maintainAspectRatio (resize p) with
                    | Some false => sharp.fill
                    | _ => sharp.inside
                    end;
                  sharp.withoutEnlargement := true |}
          :: rest /\
        forall o, ~ In (sharp.resize o) rest).
Proof.
  intros w h.
  assert (Hnone : ~ at_least_one w /\ ~ at_least_one h ->
                  forall o, ~ In (sharp.resize o) (image p)).
  { intros [Hw Hh] o.
    destruct (resizeStep_cases p) as [[[Hc|Hc] _]|(_ & _ & Hstep)];
      [now apply Hw in Hc | now apply Hh in Hc |].
    unfold image. rewrite Hstep. cbn [app]. intros [Hin|Hin];
      [discriminate|].
    revert Hin. apply no_resize_in, image_tail_no_resize. }
  split; [|split; [exact Hnone|]].
  - intros [Hw Hh]. apply Hnone. split; intros Hc;
      apply at_least_one_positive in Hc; tauto.
  - intros Hsome.
    destruct (resizeStep_cases p) as [[_ Hstep]|(Hw & Hh & _)];
      [|fold w h in Hw, Hh; tauto].
    exists (metadataStep p ++ encodeStep p). split.
    + unfold image. rewrite Hstep. reflexivity.
    + intros o. apply no_resize_in, image_tail_no_resize.
Qed.

Lemma resize_call_policy_witness :
  exists rest,
    image width800Fill =
      sharp.rotate
      :: sharp.resize {| sharp.width := Some 800%Q; sharp.height := None;
                         sharp.fit := sharp.fill;
                         sharp.withoutEnlargement := true |}
      :: rest /\
    forall o, ~ In (sharp.resize o) rest.
Proof.
  destruct (resize_call_policy width800Fill) as (_ & _ & H).
  apply H. left. exists 800%Q. split; [reflexivity|].
  unfold Qle. simpl. lia.
Defined.

(** Counterexample to C6 as stated, below one pixel: a width of 0.5 is a
    positive number, yet no resize call is made. *)
Lemma resize_skipped_below_one_pixel :
  positive_number (width (resize halfPixelWidth))
  /\ image halfPixelWidth = [sharp.rotate; sharp.jpeg 80 true]
  /\ forall o, ~ In (sharp.resize o) (image halfPixelWidth).
Proof.
  split; [|split].
  - exists (1 # 2)%Q. split; [reflexivity|]. reflexivity.
  - reflexivity.
  - intros o [H|[H|[]]]; discriminate.
Qed.

End ResizeClaims.

(** ** Strings and paths *)

Section Strings.

Lemma list_ascii_of_string_app (a b : string) :
  list_ascii_of_string (a ++ b)
  = list_ascii_of_string a ++ list_ascii_of_string b.
Proof. induction a as [|c a IH]; simpl; [reflexivity|now rewrite IH]. Qed.

Lemma span_app (f : ascii -> bool) (a b : list ascii) :
  (forall c, In c a -> f c = true) ->
  span f (a ++ b) = (a ++ fst (span f b), snd (span f b)).
Proof.
  induction a as [|c a IH]; intros Hall; cbn.
  - now destruct (span f b).
  - rewrite (Hall c (or_introl eq_refl)), IH by (intros; apply Hall; now right).
    reflexivity.
Qed.

Lemma span_stop (f : ascii -> bool) (c : ascii) (l : list ascii) :
  f c = false -> span f (c :: l) = ([], c :: l).
Proof. intros H. cbn. now rewrite H. Qed.

Lemma span_all (f : ascii -> bool) (a : list ascii) :
  (forall c, In c a -> f c = true) -> span f a = (a, []).
Proof.
  intros Hall. rewrite <- (app_nil_r a) at 1.
  rewrite span_app by exact Hall. cbn. now rewrite app_nil_r.
Qed.

Lemma eqb_neq_false (a b : ascii) : a <> b -> Ascii.eqb a b = false.
Proof. intros H. now apply Ascii.eqb_neq. Qed.

Lemma rev_nonempty (l : list ascii) : l <> [] -> rev l <> [].
Proof.
  intros Hl H. apply Hl. rewrite <- (rev_involutive l), H. reflexivity.
Qed.

Lemma list_ascii_nonempty (s : string) :
  s <> EmptyString -> list_ascii_of_string s <> [].
Proof. destruct s; [congruence|discriminate]. Qed.

Lemma not_sep (l : list ascii) (c : ascii) :
  ~ In "/"%char l -> In c l -> negb (path.is_sep c) = true.
Proof.
  intros Hno Hc. unfold path.is_sep.
  rewrite eqb_neq_false; [reflexivity|]. intros ->. tauto.
Qed.

Lemma not_dot (l : list ascii) (c : ascii) :
  ~ In "."%char l -> In c l -> negb (path.is_dot c) = true.
Proof.
  intros Hno Hc. unfold path.is_dot.
  rewrite eqb_neq_false; [reflexivity|]. intros ->. tauto.
Qed.

(** The last component of [dir ++ base] is [base] and what stands before
    it is [dir], when [dir] is empty or ends with a separator and [base] is
    a non-empty name without separator. *)
Lemma rev_base_above (dir base : list ascii) :
  dir = [] \/ (exists d, dir = d ++ ["/"%char]) ->
  base <> [] -> ~ In "/"%char base ->
  path.rev_base (dir ++ base) = rev base
  /\ path.rev_above (dir ++ base) = rev dir.
Proof.
  intros Hdir Hbase Hsep. unfold path.rev_base, path.rev_above.
  rewrite rev_app_distr.
  assert (Hall : forall c, In c (rev base) -> negb (path.is_sep c) = true).
  { intros c Hc. apply in_rev in Hc. now apply (not_sep base). }
  assert (Hdrop : dropWhile path.is_sep (rev base ++ rev dir)
                  = rev base ++ rev dir).
  { pose proof (rev_nonempty base Hbase) as Hne.
    destruct (rev base) as [|c rb]; [congruence|]. cbn [app dropWhile].
    specialize (Hall c (or_introl eq_refl)).
    now destruct (path.is_sep c). }
  rewrite Hdrop, span_app by exact Hall.
  assert (Hstop : span (fun c => negb (path.is_sep c)) (rev dir)
                  = ([], rev dir)).
  { destruct Hdir as [->|[d ->]]; [reflexivity|].
    rewrite rev_app_distr. reflexivity. }
  rewrite Hstop. cbn [fst snd]. now rewrite app_nil_r.
Qed.

Lemma after_root_dotdot_false (l : list ascii) :
  path.rev_base l <> ["."%char; "."%char] -> path.after_root_dotdot l = false.
Proof.
  unfold path.after_root_dotdot, path.is_dot. intros Hne.
  destruct (path.rev_base l) as [|a [|b [|x rb]]]; try reflexivity.
  destruct (path.rev_above l) as [|c [|y ra]]; try reflexivity.
  destruct (Ascii.eqb_spec a "."); [|reflexivity].
  destruct (Ascii.eqb_spec b "."); [|reflexivity].
  subst. congruence.
Qed.

Lemma rev_name_no_dot (rbase : list ascii) :
  ~ In "."%char rbase -> path.rev_name rbase = rbase.
Proof.
  intros Hno. unfold path.rev_name.
  rewrite span_all by (intros c Hc; now apply (not_dot rbase)).
  now destruct rbase.
Qed.

Lemma rev_name_cut (rext rstem : list ascii) :
  ~ In "."%char rext -> rstem <> [] ->
  ~ (rext = [] /\ rstem = ["."%char]) ->
  path.rev_name (rext ++ "."%char :: rstem) = rstem.
Proof.
  intros Hno Hstem Hdd. unfold path.rev_name.
  rewrite span_app by (intros c Hc; now apply (not_dot rext)).
  rewrite span_stop by reflexivity. cbn [fst snd]. rewrite app_nil_r.
  destruct rext as [|x rext]; destruct rstem as [|d [|d' rstem]];
    try congruence; try reflexivity.
  unfold path.is_dot. destruct (Ascii.eqb_spec d "."); [|reflexivity].
  subst. exfalso. apply Hdd. auto.
Qed.

Lemma rev_name_hidden (rext : list ascii) :
  ~ In "."%char rext ->
  path.rev_name (rext ++ ["."%char]) = rext ++ ["."%char].
Proof.
  intros Hno. unfold path.rev_name.
  rewrite span_app by (intros c Hc; now apply (not_dot rext)).
  rewrite span_stop by reflexivity. cbn [fst snd]. rewrite app_nil_r.
  now destruct rext.
Qed.

Lemma directory_prefix_list (dir : string) :
  directory_prefix dir ->
  list_ascii_of_string dir = []
  \/ exists d, list_ascii_of_string dir = d ++ ["/"%char].
Proof.
  intros [->|[d ->]]; [now left|right].
  exists (list_ascii_of_string d). now rewrite list_ascii_of_string_app.
Qed.

(** The name of a path is the one of its last component: directories are
    dropped. *)
Lemma parse_name_of_base (dir base : string) :
  directory_prefix dir -> base <> EmptyString -> no_char "/" base ->
  path.rev_base (list_ascii_of_string base)
  <> ["."%char; "."%char] ->
  path.parse_name (dir ++ base)
  = string_of_list_ascii
      (rev (path.rev_name (rev (list_ascii_of_string base)))).
Proof.
  intros Hdir Hbase Hsep Hdd. unfold path.parse_name, no_char in *.
  cbv zeta. rewrite list_ascii_of_string_app.
  destruct (rev_base_above (list_ascii_of_string dir)
              (list_ascii_of_string base)
              (directory_prefix_list dir Hdir)
              (list_ascii_nonempty base Hbase) Hsep) as [Hb _].
  destruct (rev_base_above [] (list_ascii_of_string base)
              (or_introl eq_refl) (list_ascii_nonempty base Hbase) Hsep)
    as [Hb0 _].
  cbn [app] in Hb0.
  rewrite after_root_dotdot_false by (rewrite Hb, <- Hb0; exact Hdd).
  now rewrite Hb.
Qed.

Lemma rev_base_of_name (base : string) :
  base <> EmptyString -> no_char "/" base ->
  path.rev_base (list_ascii_of_string base)
  = rev (list_ascii_of_string base).
Proof.
  intros Hbase Hsep.
  now destruct (rev_base_above [] (list_ascii_of_string base)
                  (or_introl eq_refl) (list_ascii_nonempty base Hbase) Hsep).
Qed.

(** A name without a dot is its own base name. *)
Lemma parse_name_plain (dir base : string) :
  directory_prefix dir -> base <> EmptyString ->
  no_char "/" base -> no_char "." base ->
  path.parse_name (dir ++ base) = base.
Proof.
  intros Hdir Hbase Hsep Hdot.
  assert (Hrdot : ~ In "."%char (rev (list_ascii_of_string base))).
  { intros H. apply in_rev in H. exact (Hdot H). }
  rewrite parse_name_of_base; try assumption.
  - rewrite rev_name_no_dot by exact Hrdot.
    rewrite rev_involutive. apply string_of_list_ascii_of_string.
  - rewrite rev_base_of_name by assumption. intros H.
    apply Hrdot. rewrite H. now left.
Qed.

(** A name made of a stem, a dot and an extension without dot parses to the
    stem; the stem may hold dots of its own. *)
Lemma parse_name_stem_ext (dir stem e : string) :
  directory_prefix dir -> stem <> EmptyString ->
  no_char "/" stem -> no_char "/" e -> no_char "." e ->
  ~ (stem = "."%string /\ e = EmptyString) ->
  path.parse_name (dir ++ stem ++ "." ++ e) = stem.
Proof.
  intros Hdir Hstem Hs1 He1 He2 Hdd. unfold no_char in *.
  set (ls := list_ascii_of_string stem) in *.
  set (le := list_ascii_of_string e) in *.
  assert (Hlist : list_ascii_of_string (stem ++ "." ++ e)
                  = ls ++ "."%char :: le).
  { now rewrite !list_ascii_of_string_app. }
  assert (Hrev : rev (ls ++ "."%char :: le) = rev le ++ "."%char :: rev ls).
  { rewrite rev_app_distr. cbn [rev]. now rewrite <- app_assoc. }
  assert (Hre : ~ In "."%char (rev le)).
  { intros H. apply in_rev in H. tauto. }
  assert (Hrs : rev ls <> []).
  { apply rev_nonempty. now apply list_ascii_nonempty. }
  assert (Hnot : ~ (rev le = [] /\ rev ls = ["."%char])).
  { intros [H1 H2]. apply Hdd. split.
    - apply (f_equal (@rev ascii)) in H2. rewrite rev_involutive in H2.
      cbn in H2. rewrite <- (string_of_list_ascii_of_string stem).
      fold ls. now rewrite H2.
    - apply (f_equal (@rev ascii)) in H1. rewrite rev_involutive in H1.
      cbn in H1. rewrite <- (string_of_list_ascii_of_string e).
      fold le. now rewrite H1. }
  assert (Hbase : (stem ++ "." ++ e)%string <> EmptyString).
  { destruct stem; [congruence|discriminate]. }
  assert (Hsep : ~ In "/"%char (list_ascii_of_string (stem ++ "." ++ e))).
  { rewrite Hlist. intros H. apply in_app_or in H.
    destruct H as [H|[H|H]]; [tauto|discriminate|tauto]. }
  rewrite parse_name_of_base; try assumption.
  - rewrite Hlist, Hrev, rev_name_cut by assumption.
    rewrite rev_involutive. apply string_of_list_ascii_of_string.
  - rewrite rev_base_of_name by assumption. rewrite Hlist, Hrev.
    intros H. apply Hnot.
    destruct (rev le) as [|x [|y rl]]; cbn in H.
    + injection H as H. split; [reflexivity|exact H].
    + injection H as -> H. exfalso. apply Hre. now left.
    + injection H as _ -> _. exfalso. apply Hre. right. now left.
Qed.

(** A name that starts with its only dot has no extension. *)
Lemma parse_name_hidden (dir e : string) :
  directory_prefix dir -> no_char "/" e -> no_char "." e ->
  path.parse_name (dir ++ "." ++ e) = ("." ++ e)%string.
Proof.
  intros Hdir He1 He2. unfold no_char in *.
  set (le := list_ascii_of_string e) in *.
  assert (Hlist : list_ascii_of_string ("." ++ e) = "."%char :: le)
    by reflexivity.
  assert (Hre : ~ In "."%char (rev le)).
  { intros H. apply in_rev in H. tauto. }
  assert (Hsep : ~ In "/"%char (list_ascii_of_string ("." ++ e))).
  { rewrite Hlist. intros [H|H]; [discriminate|tauto]. }
  rewrite parse_name_of_base; try assumption; try discriminate.
  - rewrite Hlist. cbn [rev]. rewrite rev_name_hidden by exact Hre.
    rewrite rev_app_distr, rev_involutive. cbn [rev app].
    rewrite <- Hlist. apply string_of_list_ascii_of_string.
  - rewrite rev_base_of_name by (try assumption; discriminate).
    rewrite Hlist. cbn [rev]. intros H.
    destruct (rev le) as [|x [|y rl]]; cbn in H; try discriminate.
    + inversion H; subst. apply Hre. now left.
    + destruct rl; discriminate.
Qed.

(** Trailing separators do not count. *)
Lemma parse_name_trailing_separator (p : string) :
  path.parse_name (p ++ "/") = path.parse_name p.
Proof.
  unfold path.parse_name, path.after_root_dotdot, path.rev_base,
    path.rev_above. cbv zeta.
  rewrite list_ascii_of_string_app, rev_app_distr. reflexivity.
Qed.

(** The two readings of [..]: the name of the parent directory, except
    right after the root. *)
Lemma parse_name_dotdot :
  path.parse_name ".." = ".."%string
  /\ path.parse_name "photos/.." = ".."%string
  /\ path.parse_name "/.." = "."%string.
Proof. repeat split; reflexivity. Qed.

End Strings.

(** ** The output file name *)

Section FileName.

Variable host : Host.

Lemma ext_of_target_format (format : string) :
  In format target_formats -> ext (getMimeAndExt format) = format.
Proof.
  unfold target_formats. cbn [In].
  intros [<-|[<-|[<-|[<-|[]]]]]; reflexivity.
Qed.

Lemma existsb_eqb_In (name : string) (l : list string) :
  existsb (String.eqb name) l = true <-> In name l.
Proof.
  rewrite existsb_exists. split.
  - intros (x & Hx & Heq). apply String.eqb_eq in Heq. now subst.
  - intros Hin. exists name. split; [exact Hin|apply String.eqb_refl].
Qed.

Lemma getProperty_cases {A : Type} (o : gmap string A) (name : string) :
  (exists value, o !! name = Some value /\
                 getProperty o name = OwnProperty value)
  \/ (o !! name = None /\ In name Object_prototype /\
      getProperty o name = InheritedProperty)
  \/ (o !! name = None /\ ~ In name Object_prototype /\
      getProperty o name = NoProperty).
Proof.
  unfold getProperty. destruct (o !! name) as [value|]; [left; eauto|].
  right. destruct (existsb (String.eqb name) Object_prototype) eqn:Hex.
  - left. apply existsb_eqb_In in Hex. auto.
  - right. split; [reflexivity|]. split; [|reflexivity].
    intros Hin. apply existsb_eqb_In in Hin. congruence.
Qed.

Lemma resolveInput_binary (p : NodeParameters) (i : nat) (item : Item)
    (inputBuffer : Buffer) (name : option string) :
  inputSource p = "binary"%string ->
  resolveInput host p i item = Ok (inputBuffer, name) ->
  getBinaryDataBuffer host i (binaryPropertyName p) = Ok inputBuffer /\
  name = sourceFileName item (binaryPropertyName p) /\
  ~ binary_property_absent item (binaryPropertyName p).
Proof.
  intros Hsrc. unfold resolveInput, sourceFileName, binary_property_absent.
  rewrite Hsrc. cbn [String.eqb Ascii.eqb Bool.eqb].
  destruct (binary item) as [slots|]; [|discriminate].
  cbn [mbind option_bind].
  destruct (getProperty_cases slots (binaryPropertyName p))
    as [(binaryData & Hl & ->)|[(Hl & Hin & ->)|(Hl & Hout & ->)]];
    [| |discriminate]; rewrite Hl;
    (destruct (getBinaryDataBuffer host i _) as [buffer|]; cbn [bind];
     [|discriminate]);
    intros [= <- <-]; repeat split; try reflexivity.
  - intros [Hnone _]. congruence.
  - intros [_ Hout]. tauto.
Qed.

Lemma resolveInput_base64_name (p : NodeParameters) (i : nat) (item : Item)
    (inputBuffer : Buffer) (name : option string) :
  inputSource p <> "binary"%string ->
  resolveInput host p i item = Ok (inputBuffer, name) ->
  name = Some "input"%string.
Proof.
  intros Hsrc. unfold resolveInput.
  apply String.eqb_neq in Hsrc. rewrite Hsrc.
  destruct (json item !! base64FieldName p) as [[| | |[|c s]| |]|];
    try discriminate.
  now intros [= _ <-].
Qed.

Lemma outFileName_of_name (name : string) (target : string) :
  In target target_formats -> name <> EmptyString ->
  outFileName (Some name) target
  = (path.parse_name name ++ "." ++ target)%string.
Proof.
  intros Htarget Hname. unfold outFileName, baseName.
  rewrite ext_of_target_format by exact Htarget.
  destruct name; [congruence|reflexivity].
Qed.

Lemma app_not_empty (a b : string) :
  b <> EmptyString -> (a ++ b)%string <> EmptyString.
Proof. destruct a; [now cbn|discriminate]. Qed.

(** C7. The output file name is the base name of the source file name with
    its extension discarded, followed by a dot and the extension of the
    target format (jpg, png, webp, avif).  Directories before the last
    component are dropped; a name without a dot is kept whole; a stem, a dot
    and an extension without dot give the stem (which may hold dots of its
    own); a name that starts with its only dot has no extension to discard.
    So photo.tiff converted to png becomes photo.png.  Without a source file
    name (absent or empty) the base name is image.  A record read from a
    binary property stores its result under the name formed from the file
    name of that property. *)
Theorem output_file_name (target : string) (Htarget : In target target_formats) :
  (forall dir base : string,
      directory_prefix dir -> base <> EmptyString ->
      no_char "/" base -> no_char "." base ->
      outFileName (Some (dir ++ base)%string) target
      = (base ++ "." ++ target)%string)
  /\ (forall dir stem e : string,
        directory_prefix dir -> stem <> EmptyString ->
        no_char "/" stem -> no_char "/" e -> no_char "." e ->
        ~ (stem = "."%string /\ e = EmptyString) ->
        outFileName (Some (dir ++ stem ++ "." ++ e)%string) target
        = (stem ++ "." ++ target)%string)
  /\ (forall dir e : string,
        directory_prefix dir -> no_char "/" e -> no_char "." e ->
        outFileName (Some (dir ++ "." ++ e)%string) target
        = ("." ++ e ++ "." ++ target)%string)
  /\ outFileName (Some "photo.tiff"%string) "png" = "photo.png"%string
  /\ outFileName None target = ("image." ++ target)%string
  /\ outFileName (Some EmptyString) target = ("image." ++ target)%string
  /\ (forall (i : nat) (item newItem : Item),
        let p := getNodeParameter host i in
        inputSource p = "binary"%string ->
        format p = target ->
        processItem host i item = Ok newItem ->
        exists outputBuffer binaryOut,
          prepareBinaryData host outputBuffer
            (outFileName (sourceFileName item (binaryPropertyName p)) target)
            (mime (getMimeAndExt target)) = Ok binaryOut /\
          binary newItem ≫= (fun b => b !! outputBinaryPropertyName p)
          = Some binaryOut).
Proof.
  assert (Himage : forall name, baseName name = "image"%string ->
            outFileName name target = ("image." ++ target)%string).
  { intros name Hb. unfold outFileName. rewrite Hb.
    now rewrite ext_of_target_format by exact Htarget. }
  split; [|split; [|split; [|split; [reflexivity|split; [|split]]]]].
  - intros dir base Hdir Hbase Hsep Hdot.
    rewrite outFileName_of_name
      by (try exact Htarget; now apply app_not_empty).
    now rewrite parse_name_plain.
  - intros dir stem e Hdir Hstem Hs1 He1 He2 Hdd.
    rewrite outFileName_of_name; [|exact Htarget|].
    + now rewrite parse_name_stem_ext.
    + apply app_not_empty. destruct stem; [congruence|discriminate].
  - intros dir e Hdir He1 He2.
    rewrite outFileName_of_name
      by (try exact Htarget; apply app_not_empty; discriminate).
    now rewrite parse_name_hidden.
  - now apply Himage.
  - now apply Himage.
  - intros i item newItem p Hsrc Hf Hok.
    destruct (processItem_Ok host i item newItem Hok)
      as (inputBuffer & name & outputBuffer & binaryOut
          & Hin & _ & _ & Hprep & ->).
    fold p in Hin, Hprep.
    destruct (resolveInput_binary p i item inputBuffer name Hsrc Hin)
      as (_ & -> & _).
    exists outputBuffer, binaryOut. rewrite <- Hf.
    split; [exact Hprep|].
    cbn [binary mbind option_bind]. fold p. apply lookup_insert_eq.
Qed.

End FileName.

Lemma output_file_name_witness :
  outFileName (Some "uploads/2024/holiday.2024.jpeg"%string) "webp"
  = "holiday.2024.webp"%string
  /\ outFileName (Some "docs/README"%string) "webp" = "README.webp"%string
  /\ outFileName (Some ".profile"%string) "webp" = ".profile.webp"%string
  /\ outFileName None "webp" = "image.webp"%string
  /\ exists outputBuffer binaryOut,
       prepareBinaryData tolerantHost outputBuffer "photo.jpg" "image/jpeg"
       = Ok binaryOut /\
       binary (recordOutput tolerantHost 0 record1)
         ≫= (fun b => b !! "data"%string)
       = Some binaryOut.
Proof.
  assert (Hwebp : In "webp"%string target_formats)
    by (right; right; left; reflexivity).
  assert (Hjpg : In "jpg"%string target_formats) by (left; reflexivity).
  assert (Hdir : directory_prefix "uploads/2024/")
    by (right; exists "uploads/2024"%string; reflexivity).
  assert (Hdocs : directory_prefix "docs/")
    by (right; exists "docs"%string; reflexivity).
  assert (Hno : forall c s,
            existsb (Ascii.eqb c) (list_ascii_of_string s) = false ->
            no_char c s).
  { intros c s Hex Hin. apply not_true_iff_false in Hex. apply Hex.
    apply existsb_exists. exists c. split; [exact Hin|apply Ascii.eqb_refl]. }
  destruct (output_file_name tolerantHost "webp" Hwebp)
    as (Hplain & Hstem & Hhidden & _ & Hnone & _).
  destruct (output_file_name tolerantHost "jpg" Hjpg)
    as (_ & _ & _ & _ & _ & _ & Hrec).
  split; [|split; [|split; [|split; [exact Hnone|]]]].
  - apply (Hstem "uploads/2024/"%string "holiday.2024"%string "jpeg"%string);
      try exact Hdir; try discriminate; try (apply Hno; reflexivity).
    intros [H _]. discriminate.
  - apply (Hplain "docs/"%string "README"%string);
      try exact Hdocs; try discriminate; apply Hno; reflexivity.
  - apply (Hhidden EmptyString "profile"%string);
      try (now left); apply Hno; reflexivity.
  - exact (Hrec 0%nat record1 _ eq_refl eq_refl (record1_ok true)).
Defined.

(** ** Base64 input *)

Section DataUri.

Lemma strip_literal_app (lit rest : list ascii) :
  strip_literal lit (lit ++ rest) = Some rest.
Proof.
  induction lit as [|c lit IH]; cbn; [now destruct rest|].
  now rewrite Ascii.eqb_refl.
Qed.

Lemma replace_data_uri_prefix_strips (m s : string) :
  mime_token m ->
  replace_data_uri_prefix ("data:" ++ m ++ ";base64," ++ s) = s.
Proof.
  intros [Hne Hsemi]. unfold replace_data_uri_prefix, no_char in *.
  rewrite !list_ascii_of_string_app.
  set (lm := list_ascii_of_string m) in *.
  rewrite strip_literal_app.
  assert (Hall : forall c, In c lm -> negb (Ascii.eqb c ";") = true).
  { intros c Hc. rewrite eqb_neq_false; [reflexivity|]. intros ->. tauto. }
  rewrite span_app by exact Hall.
  change (list_ascii_of_string ";base64," ++ list_ascii_of_string s)
    with (";"%char :: list_ascii_of_string "base64,"
          ++ list_ascii_of_string s).
  rewrite span_stop by reflexivity. cbn [fst snd]. rewrite app_nil_r.
  destruct lm as [|c lm'] eqn:Hlm.
  { exfalso. apply Hne. destruct m; [reflexivity|discriminate]. }
  change (";"%char :: list_ascii_of_string "base64,"
          ++ list_ascii_of_string s)
    with (list_ascii_of_string ";base64," ++ list_ascii_of_string s).
  rewrite strip_literal_app. apply string_of_list_ascii_of_string.
Qed.

Variable host : Host.

Lemma resolveInput_base64 (p : NodeParameters) (i : nat) (item : Item)
    (c : ascii) (s : string) :
  inputSource p <> "binary"%string ->
  json item !! base64FieldName p = Some (JString (String c s)) ->
  resolveInput host p i item
  = Ok (Buffer_from_base64 host (replace_data_uri_prefix (String c s)),
        Some "input"%string).
Proof.
  intros Hsrc Hfield. unfold resolveInput.
  apply String.eqb_neq in Hsrc. now rewrite Hsrc, Hfield.
Qed.

(** C8, as the code has it.  In base64 mode, for a mime part that is not
    empty and has no semicolon, and a payload that is not empty and does
    not itself start with a data-URI prefix, the field value
    data:<mime>;base64,<payload> resolves to the same buffer as the
    payload alone; data:image/png;base64,AAAA resolves as AAAA. *)
Theorem data_uri_prefix_stripped (p : NodeParameters) (i : nat)
    (prefixed raw : Item) (m s : string) :
  inputSource p <> "binary"%string ->
  mime_token m ->
  s <> EmptyString ->
  replace_data_uri_prefix s = s ->
  json prefixed !! base64FieldName p
  = Some (JString ("data:" ++ m ++ ";base64," ++ s)) ->
  json raw !! base64FieldName p = Some (JString s) ->
  resolveInput host p i prefixed = resolveInput host p i raw
  /\ resolveInput host p i raw
     = Ok (Buffer_from_base64 host s, Some "input"%string)
  /\ replace_data_uri_prefix "data:image/png;base64,AAAA" = "AAAA"%string
  /\ replace_data_uri_prefix "AAAA" = "AAAA"%string.
Proof.
  intros Hsrc Hm Hs Hraw Hf1 Hf2.
  destruct s as [|c s']; [congruence|].
  change ("data:" ++ m ++ ";base64," ++ String c s')%string
    with (String "d" ("ata:" ++ m ++ ";base64," ++ String c s')%string) in Hf1.
  rewrite (resolveInput_base64 p i prefixed _ _ Hsrc Hf1).
  rewrite (resolveInput_base64 p i raw _ _ Hsrc Hf2).
  change (String "d" ("ata:" ++ m ++ ";base64," ++ String c s')%string)
    with ("data:" ++ m ++ ";base64," ++ String c s')%string.
  rewrite replace_data_uri_prefix_strips by exact Hm.
  rewrite Hraw. repeat split; reflexivity.
Qed.

End DataUri.

Lemma data_uri_prefix_stripped_witness :
  resolveInput base64Host base64Parameters 0
    (base64Item "imageBase64" "data:image/png;base64,AAAA")
  = resolveInput base64Host base64Parameters 0
      (base64Item "imageBase64" "AAAA")
  /\ resolveInput base64Host base64Parameters 0
       (base64Item "imageBase64" "AAAA")
     = Ok ([x00; x00; x00], Some "input"%string).
Proof.
  destruct (data_uri_prefix_stripped base64Host base64Parameters 0
              (base64Item "imageBase64" "data:image/png;base64,AAAA")
              (base64Item "imageBase64" "AAAA")
              "image/png" "AAAA") as (H1 & H2 & _).
  - discriminate.
  - split; [discriminate|]. unfold no_char. simpl. intros H.
    repeat (destruct H as [H|H]; [discriminate|]). exact H.
  - discriminate.
  - reflexivity.
  - reflexivity.
  - reflexivity.
  - split; [exact H1|exact H2].
Defined.

(** Counterexamples to C8 as stated, two payloads.  The empty payload:
    alone it is refused, behind a prefix it resolves to the empty buffer.
    A payload that starts with a data-URI prefix of its own: alone the
    prefix is removed, behind another prefix it is decoded with the rest. *)
Lemma data_uri_payload_not_every_string :
  resolveInput base64Host base64Parameters 0
    (base64Item "imageBase64" "data:image/png;base64,")
  = Ok ([], Some "input"%string)
  /\ resolveInput base64Host base64Parameters 0
       (base64Item "imageBase64" EmptyString)
     = Throw ("Field " ++ dquote ++ "imageBase64" ++ dquote
              ++ " must contain a Base64 string")%string
  /\ resolveInput base64Host base64Parameters 0
       (base64Item "imageBase64" "data:image/png;base64,data:x;base64,AAAA")
     = Ok (Base64.decode "data:x;base64,AAAA", Some "input"%string)
  /\ resolveInput base64Host base64Parameters 0
       (base64Item "imageBase64" "data:x;base64,AAAA")
     = Ok ([x00; x00; x00], Some "input"%string)
  /\ Base64.decode "data:x;base64,AAAA" <> [x00; x00; x00].
Proof. repeat split; try reflexivity. discriminate. Qed.

(** ** The loop over the records *)

Section Loop.

Variable host : Host.

(** With failures tolerated every record yields one output, in order. *)
Lemma loop_continue (rest : list Item) (i : nat) (returnData : list Item) :
  continueOnFail host = true ->
  loop host rest i returnData =
    {| final_i := i + length rest;
       final_returnData :=
         returnData ++ imap (fun j => recordOutput host (i + j)) rest;
       completion :=
         Returned [returnData
                   ++ imap (fun j => recordOutput host (i + j)) rest] |}.
Proof.
  intros Hc. revert i returnData.
  induction rest as [|item rest IH]; intros i returnData.
  - cbn. now rewrite Nat.add_0_r, app_nil_r.
  - cbn [loop imap length]. unfold recordOutput at 1 3.
    rewrite Nat.add_0_r, Hc.
    assert (Hshift : imap ((fun j => recordOutput host (i + j)) ∘ S) rest
                     = imap (fun j => recordOutput host (S i + j)) rest).
    { apply imap_ext. intros j x _. cbn. f_equal. lia. }
    rewrite Hshift.
    destruct (processItem host i item) as [newItem|message];
      rewrite IH, <- app_assoc; cbn [app];
      replace (S i + length rest)%nat with (i + S (length rest))%nat by lia;
      reflexivity.
Qed.

Lemma execute_continue (items : list Item) :
  continueOnFail host = true ->
  execute host items = Returned [imap (recordOutput host) items].
Proof.
  intros Hc. unfold execute. now rewrite loop_continue by exact Hc.
Qed.

(** Records that succeed are pushed and the loop goes on, whatever the
    failure mode. *)
Lemma loop_success_prefix (pre rest : list Item) (i : nat)
    (returnData : list Item) :
  (forall j item, pre !! j = Some item ->
                  exists newItem, processItem host (i + j) item = Ok newItem) ->
  loop host (pre ++ rest) i returnData
  = loop host rest (i + length pre)
      (returnData ++ imap (fun j => recordOutput host (i + j)) pre).
Proof.
  revert i returnData.
  induction pre as [|item pre IH]; intros i returnData Hok.
  - cbn. now rewrite Nat.add_0_r, app_nil_r.
  - cbn [app loop imap length].
    destruct (Hok 0%nat item eq_refl) as [newItem Hitem].
    rewrite Nat.add_0_r in Hitem. unfold recordOutput at 1.
    rewrite Nat.add_0_r, Hitem.
    rewrite IH.
    + rewrite <- app_assoc. cbn [app].
      replace (S i + length pre)%nat with (i + S (length pre))%nat by lia.
      f_equal. f_equal. f_equal. apply imap_ext. intros j x _. cbn.
      f_equal. lia.
    + intros j x Hj. destruct (Hok (S j) x Hj) as [o Ho].
      exists o. now replace (S i + j)%nat with (i + S j)%nat by lia.
Qed.

(** The first failure of a strict run ends the loop where it stands. *)
Lemma loop_abort (pre : list Item) (bad : Item) (tail : list Item)
    (message : string) :
  continueOnFail host = false ->
  (forall j item, pre !! j = Some item ->
                  exists newItem, processItem host j item = Ok newItem) ->
  processItem host (length pre) bad = Throw message ->
  loop host (pre ++ bad :: tail) 0 [] =
    {| final_i := length pre;
       final_returnData := imap (recordOutput host) pre;
       completion := Thrown message |}.
Proof.
  intros Hc Hok Hbad.
  rewrite loop_success_prefix by exact Hok.
  cbn [loop app Nat.add]. rewrite Hbad, Hc. reflexivity.
Qed.

End Loop.

Section Agreement.

Lemma resolveInput_agree (k i : nat) (h1 h2 : Host) (p : NodeParameters)
    (item : Item) :
  hosts_agree_upto k h1 h2 -> (i <= k)%nat ->
  resolveInput h1 p i item = resolveInput h2 p i item.
Proof.
  intros (_ & _ & Hbuf & _ & Hb64 & _) Hi. unfold resolveInput.
  destruct (inputSource p =? "binary")%string.
  - destruct (binary item) as [slots|]; [|reflexivity].
    destruct (getProperty slots (binaryPropertyName p));
      try reflexivity; now rewrite Hbuf by exact Hi.
  - destruct (json item !! base64FieldName p) as [[| | |[|c s]| |]|];
      try reflexivity.
    now rewrite Hb64.
Qed.

Lemma processItem_agree (k i : nat) (h1 h2 : Host) (item : Item) :
  hosts_agree_upto k h1 h2 -> (i <= k)%nat ->
  processItem h1 i item = processItem h2 i item.
Proof.
  intros Hagree Hi. unfold processItem. cbv zeta.
  rewrite (resolveInput_agree k i h1 h2 _ item Hagree Hi).
  destruct Hagree as (_ & Hpar & _ & Hprep & _ & Hcodec).
  rewrite (Hpar i Hi).
  destruct (resolveInput h2 _ i item) as [[inputBuffer name]|];
    cbn [bind]; [|reflexivity].
  destruct (sizeGuard _ _); cbn [bind]; [|reflexivity].
  rewrite Hcodec.
  destruct (toBuffer h2 inputBuffer _); cbn [bind]; [|reflexivity].
  now rewrite Hprep.
Qed.

Lemma hosts_agree_refl (k : nat) (h : Host) : hosts_agree_upto k h h.
Proof. unfold hosts_agree_upto. auto 10. Qed.

End Agreement.

(** ** Failure handling of the batch *)

Section Failures.

Variable host : Host.

(** C2, as the code has it.  With failure tolerance off, when record k is
    the first that fails, execute rejects with the error of that record
    and returns no output.  At that moment the loop stands at record k and
    the local array holds exactly the k-1 records processed before it, in
    order.  Records k+1 onward are never attempted: neither their content
    nor what the context would answer for them has any influence. *)
Theorem abort_on_first_failure (pre : list Item) (bad : Item)
    (tail : list Item) (message : string) :
  continueOnFail host = false ->
  (forall j item, pre !! j = Some item ->
                  exists newItem, processItem host j item = Ok newItem) ->
  processItem host (length pre) bad = Throw message ->
  execute host (pre ++ bad :: tail) = Thrown message
  /\ final_i (loop host (pre ++ bad :: tail) 0 []) = length pre
  /\ length (final_returnData (loop host (pre ++ bad :: tail) 0 []))
     = length pre
  /\ (forall j item,
        pre !! j = Some item ->
        exists newItem,
          processItem host j item = Ok newItem /\
          final_returnData (loop host (pre ++ bad :: tail) 0 []) !! j
          = Some newItem)
  /\ (forall (host' : Host) (tail' : list Item),
        hosts_agree_upto (length pre) host host' ->
        loop host' (pre ++ bad :: tail') 0 []
        = loop host (pre ++ bad :: tail) 0 []).
Proof.
  intros Hc Hok Hbad.
  pose proof (loop_abort host pre bad tail message Hc Hok Hbad) as Hloop.
  unfold execute. rewrite Hloop. cbn [completion final_i final_returnData].
  split; [reflexivity|]. split; [reflexivity|].
  split; [apply length_imap|]. split.
  - intros j item Hj. destruct (Hok j item Hj) as [newItem Hnew].
    exists newItem. split; [exact Hnew|].
    rewrite list_lookup_imap, Hj. cbn. unfold recordOutput.
    now rewrite Hnew.
  - intros host' tail' Hagree.
    assert (Hsame : forall j item, (j <= length pre)%nat ->
                      processItem host' j item = processItem host j item).
    { intros j item Hj. symmetry.
      now apply processItem_agree with (k := length pre). }
    rewrite (loop_abort host' pre bad tail' message).
    + f_equal. apply imap_ext. intros j item Hj. unfold recordOutput.
      rewrite Hsame; [reflexivity|]. apply lookup_lt_Some in Hj. lia.
    + destruct Hagree as (Hcf & _). congruence.
    + intros j item Hj. rewrite Hsame; [now apply Hok|].
      apply lookup_lt_Some in Hj. lia.
    + rewrite Hsame; [exact Hbad|lia].
Qed.

(** C5. With failure tolerance on, a batch of three records of which only
    the second fails yields three output records in input order: the
    first and third processed normally, the second made of an error field
    with the message of the failure and of its original binary map. *)
Theorem continue_on_fail_three_records (r1 r2 r3 o1 o3 : Item)
    (message : string) :
  continueOnFail host = true ->
  processItem host 0 r1 = Ok o1 ->
  processItem host 1 r2 = Throw message ->
  processItem host 2 r3 = Ok o3 ->
  execute host [r1; r2; r3]
  = Returned [[o1;
               {| json := {["error"%string := JString message]};
                  binary := binary r2 |};
               o3]].
Proof.
  intros Hc H1 H2 H3. unfold execute. cbn [loop].
  rewrite H1, H2, Hc, H3. reflexivity.
Qed.

(** C9. With failure tolerance on, the output of a failing record has a
    structured data made of the error field alone, whatever the record
    carried; a record that succeeds keeps every field it had, next to the
    compression summary stored under [compression]. *)
Theorem error_item_json_only_error (items : list Item) (i : nat)
    (item : Item) :
  continueOnFail host = true ->
  items !! i = Some item ->
  exists returnData out,
    execute host items = Returned [returnData] /\
    returnData !! i = Some out /\
    (forall message,
        processItem host i item = Throw message ->
        json out = {["error"%string := JString message]} /\
        binary out = binary item /\
        forall key value,
          json out !! key = Some value ->
          key = "error"%string /\ value = JString message) /\
    (forall newItem,
        processItem host i item = Ok newItem ->
        out = newItem /\
        (exists summary,
            json out = <["compression"%string := summary]> (json item)) /\
        forall key,
          key <> "compression"%string -> json out !! key = json item !! key).
Proof.
  intros Hc Hi. unfold execute. rewrite loop_continue by exact Hc.
  cbn [completion app Nat.add].
  eexists _, (recordOutput host i item). split; [reflexivity|].
  split; [now rewrite list_lookup_imap, Hi|].
  unfold recordOutput. split.
  - intros message ->. cbn [errorItem json binary].
    split; [reflexivity|]. split; [reflexivity|].
    intros key value Hlook.
    apply lookup_singleton_Some in Hlook. destruct Hlook as [<- <-]. auto.
  - intros newItem Hok. rewrite Hok. split; [reflexivity|].
    destruct (processItem_Ok host i item newItem Hok)
      as (inputBuffer & name & outputBuffer & binaryOut & _ & _ & _ & _ & ->).
    cbn [json]. split; [eexists; reflexivity|].
    intros key Hkey. now apply lookup_insert_ne.
Qed.

End Failures.

Lemma abort_on_first_failure_witness :
  execute strictHost batch = Thrown (noBinaryData "data")
  /\ final_i (loop strictHost batch 0 []) = 1%nat
  /\ length (final_returnData (loop strictHost batch 0 [])) = 1%nat
  /\ loop strictHostOtherTail [record1; record2] 0 []
     = loop strictHost batch 0 [].
Proof.
  destruct (abort_on_first_failure strictHost [record1] record2 [record3]
              (noBinaryData "data")) as (Hex & Hi & Hlen & _ & Hind).
  - reflexivity.
  - intros [|j] item Hj; [|discriminate].
    injection Hj as <-. eexists. apply (record1_ok false).
  - apply (record2_fails false).
  - split; [exact Hex|]. split; [exact Hi|]. split; [exact Hlen|].
    apply (Hind strictHostOtherTail []). exact strict_hosts_agree.
Defined.

(** Counterexample to C2 as stated: in the reference batch record 2 is
    the first to fail; record 1 has been processed, yet execute hands back
    no output at all, only the error. *)
Lemma strict_batch_returns_no_output :
  processItem strictHost 0 record1 = Ok (recordOutput strictHost 0 record1)
  /\ processItem strictHost 1 record2 = Throw (noBinaryData "data")
  /\ execute strictHost batch = Thrown (noBinaryData "data")
  /\ forall output, execute strictHost batch <> Returned output.
Proof.
  split; [apply (record1_ok false)|]. split; [apply (record2_fails false)|].
  assert (Hex : execute strictHost batch = Thrown (noBinaryData "data"))
    by (vm_compute; reflexivity).
  split; [exact Hex|]. intros output. rewrite Hex. discriminate.
Qed.

Lemma continue_on_fail_three_records_witness :
  execute tolerantHost batch
  = Returned [[recordOutput tolerantHost 0 record1;
               {| json := {["error"%string := JString (noBinaryData "data")]};
                  binary := binary record2 |};
               recordOutput tolerantHost 2 record3]].
Proof.
  apply (continue_on_fail_three_records tolerantHost record1 record2 record3).
  - reflexivity.
  - apply (record1_ok true).
  - apply (record2_fails true).
  - apply (record3_ok true).
Defined.

Lemma error_item_json_only_error_witness :
  exists returnData out,
    execute tolerantHost batch = Returned [returnData]
    /\ returnData !! 1%nat = Some out
    /\ json out = {["error"%string := JString (noBinaryData "data")]}
    /\ json record2 !! "id"%string = Some (JNumber 2)
    /\ json out !! "id"%string = None.
Proof.
  destruct (error_item_json_only_error tolerantHost batch 1 record2)
    as (returnData & out & Hex & Hlook & Herr & _).
  - reflexivity.
  - reflexivity.
  - destruct (Herr _ (record2_fails true)) as (Hjson & _ & _).
    exists returnData, out. rewrite Hjson.
    repeat split; try assumption; reflexivity.
Defined.

(** * Further properties of the node *)

(** ** [clamp] *)

Section Clamp.

Lemma max_at_least (x lo : Q) : (lo <= x)%Q -> JsMath.max x lo = x.
Proof.
  intros H. unfold JsMath.max, Qmax, GenericMinMax.gmax.
  destruct (Qcompare_spec x lo) as [_|Hlt|_]; [reflexivity| |reflexivity].
  exfalso. lra.
Qed.

Lemma min_at_most (x hi : Q) : (x <= hi)%Q -> JsMath.min x hi = x.
Proof.
  intros H. unfold JsMath.min, Qmin, GenericMinMax.gmin.
  destruct (Qcompare_spec x hi) as [_|_|Hgt]; [reflexivity|reflexivity|].
  exfalso. lra.
Qed.

Lemma clamp_range (value lo hi : Q) :
  (lo <= hi)%Q -> (lo <= clamp value lo hi <= hi)%Q.
Proof.
  intros H. unfold clamp, JsMath.min, JsMath.max.
  destruct (Q.max_spec value lo) as [[H1 H2]|[H1 H2]];
    destruct (Q.min_spec (Qmax value lo) hi) as [[H3 H4]|[H3 H4]]; lra.
Qed.

Lemma clamp_fixes (value lo hi : Q) :
  (lo <= value <= hi)%Q -> clamp value lo hi = value.
Proof.
  intros [H1 H2]. unfold clamp.
  rewrite max_at_least by exact H1. now apply min_at_most.
Qed.

(** X1. Between bounds in the right order, [clamp] returns a number within
    the bounds, returns a number already within them unchanged, and
    clamping twice is clamping once. *)
Theorem clamp_within_bounds (value lo hi : Q) (Hbounds : (lo <= hi)%Q) :
  (lo <= clamp value lo hi <= hi)%Q
  /\ ((lo <= value <= hi)%Q -> clamp value lo hi = value)
  /\ clamp (clamp value lo hi) lo hi = clamp value lo hi.
Proof.
  split; [now apply clamp_range|]. split; [apply clamp_fixes|].
  apply clamp_fixes. now apply clamp_range.
Qed.

Lemma clamp_within_bounds_witness :
  (0 <= clamp 250 0 100 <= 100)%Q
  /\ ((0 <= 250 <= 100)%Q -> clamp 250 0 100 = 250%Q)
  /\ clamp (clamp 250 0 100) 0 100 = clamp 250 0 100.
Proof. apply (clamp_within_bounds 250 0 100). unfold Qle. simpl. lia. Defined.

(** X2. [clamp] is monotone in the value, whatever the bounds. *)
Theorem clamp_monotone (x y lo hi : Q) (Hxy : (x <= y)%Q) :
  (clamp x lo hi <= clamp y lo hi)%Q.
Proof.
  unfold clamp, JsMath.min, JsMath.max.
  apply Q.min_le_compat_r. apply Q.max_le_compat_r. exact Hxy.
Qed.

Lemma clamp_monotone_witness : (clamp (-3) 0 100 <= clamp (81 # 2) 0 100)%Q.
Proof. apply (clamp_monotone (-3) (81 # 2) 0 100). unfold Qle. simpl. lia. Defined.

End Clamp.

(** ** The level mapping on every number *)

Section PngLevelRange.

Lemma floor_at_least (z : Q) (n : Z) : n <= Qfloor z <-> (inject_Z n <= z)%Q.
Proof.
  split.
  - intros H. rewrite Zle_Qle in H. pose proof (Qfloor_le z). lra.
  - intros H. apply Qfloor_resp_le in H. now rewrite Qfloor_Z in H.
Qed.

Lemma png_level_value (quality : Q) :
  pngCompressionLevelFromQuality quality
  = inject_Z (((100 - clampZ (Qfloor (quality + (1 # 2))) 0 100) * 9 + 50)
              / 100).
Proof.
  rewrite png_level_of_number. apply png_level_of_int.
  apply clampZ_bounds. lia.
Qed.

(** X3. On all finite numbers a higher quality never gives a higher PNG
    compression level. *)
Theorem png_level_never_increases (q1 q2 : Q) (Hle : (q1 <= q2)%Q) :
  (pngCompressionLevelFromQuality q2 <= pngCompressionLevelFromQuality q1)%Q.
Proof.
  rewrite (png_level_of_number q1), (png_level_of_number q2).
  assert (Hf : Qfloor (q1 + (1 # 2)) <= Qfloor (q2 + (1 # 2)))
    by (apply Qfloor_resp_le; lra).
  apply png_level_antitone; unfold clampZ; lia.
Qed.

Lemma png_level_never_increases_witness :
  (pngCompressionLevelFromQuality (161 # 2)
   <= pngCompressionLevelFromQuality (-4))%Q.
Proof.
  apply (png_level_never_increases (-4) (161 # 2)). unfold Qle. simpl. lia.
Defined.

(** X4. The mapper gives level 0 (no compression) exactly for a quality of
    94.5 or more, and level 9 exactly for a quality below 5.5. *)
Theorem png_level_extremes (quality : Q) :
  (pngCompressionLevelFromQuality quality = 0%Q <-> (189 # 2 <= quality)%Q)
  /\ (pngCompressionLevelFromQuality quality = 9%Q <-> (quality < 11 # 2)%Q).
Proof.
  rewrite png_level_value.
  set (f := Qfloor (quality + (1 # 2))).
  set (q := clampZ f 0 100).
  assert (Hq : 0 <= q <= 100) by (apply clampZ_bounds; lia).
  pose proof (Z.div_mod ((100 - q) * 9 + 50) 100 ltac:(lia)) as Hdm.
  pose proof (Z.mod_pos_bound ((100 - q) * 9 + 50) 100 ltac:(lia)) as Hm.
  assert (H95 : 95 <= f <-> (189 # 2 <= quality)%Q).
  { unfold f. rewrite floor_at_least. change (inject_Z 95) with 95%Q.
    split; intros H; lra. }
  assert (H6 : 6 <= f <-> (11 # 2 <= quality)%Q).
  { unfold f. rewrite floor_at_least. change (inject_Z 6) with 6%Q.
    split; intros H; lra. }
  split.
  - change 0%Q with (inject_Z 0). rewrite <- H95. split.
    + intros H. injection H as H.
      assert (95 <= q) by lia. unfold q, clampZ in *. lia.
    + intros H. f_equal.
      assert (95 <= q) by (unfold q, clampZ; lia). lia.
  - change 9%Q with (inject_Z 9). split.
    + intros H. injection H as H.
      assert (q <= 5) by lia.
      apply Qnot_le_lt. intros Hc. apply H6 in Hc.
      unfold q, clampZ in *. lia.
    + intros H. f_equal.
      assert (~ 6 <= f) by (intros Hc; apply H6 in Hc; lra).
      assert (q <= 5) by (unfold q, clampZ; lia). lia.
Qed.

(** X5. Every level from 0 to 9 is the image of an integer quality between
    0 and 100. *)
Theorem png_level_reaches_every_level (level : Z) (Hlevel : 0 <= level <= 9) :
  exists q : Z,
    0 <= q <= 100 /\
    pngCompressionLevelFromQuality (inject_Z q) = inject_Z level.
Proof.
  exists (100 - 11 * level). split; [lia|].
  rewrite png_level_of_int by lia. f_equal.
  replace ((100 - (100 - 11 * level)) * 9 + 50)
    with (level * 100 + (50 - level)) by lia.
  rewrite Z.div_add_l, Z.div_small by lia. lia.
Qed.

Lemma png_level_reaches_every_level_witness :
  exists q : Z,
    0 <= q <= 100 /\ pngCompressionLevelFromQuality (inject_Z q) = inject_Z 7.
Proof. apply (png_level_reaches_every_level 7). lia. Defined.

End PngLevelRange.

(** ** [getMimeAndExt] *)

Section MimeAndExt.

Lemma getMimeAndExt_cases (format : string) :
  (In format known_formats /\
   In (getMimeAndExt format)
      [{| mime := "image/jpeg"; ext := "jpg" |};
       {| mime := "image/png"; ext := "png" |};
       {| mime := "image/webp"; ext := "webp" |};
       {| mime := "image/avif"; ext := "avif" |}])
  \/ (~ In format known_formats /\
      getMimeAndExt format
      = {| mime := "application/octet-stream"; ext := "bin" |}).
Proof.
  unfold getMimeAndExt, known_formats.
  destruct (String.eqb_spec format "jpg") as [->|H1]; cbn [orb].
  { left. split; [|left; reflexivity]. cbn; auto. }
  destruct (String.eqb_spec format "jpeg") as [->|H2].
  { left. split; [|left; reflexivity]. cbn; auto. }
  destruct (String.eqb_spec format "png") as [->|H3].
  { left. split; [|right; left; reflexivity]. cbn; auto. }
  destruct (String.eqb_spec format "webp") as [->|H4].
  { left. split; [|right; right; left; reflexivity]. cbn; auto. }
  destruct (String.eqb_spec format "avif") as [->|H5].
  { left. split; [|right; right; right; left; reflexivity]. cbn; auto 10. }
  right. split; [|reflexivity].
  cbn [In]. intros [H|[H|[H|[H|[H|[]]]]]]; congruence.
Qed.

(** X6. [getMimeAndExt] gives the generic pair (application/octet-stream,
    bin) exactly for the names other than jpg, jpeg, png, webp and avif, and
    one of the four image pairs for these; the extension it returns is
    itself a name it maps to the same pair. *)
Theorem getMimeAndExt_normalises (format : string) :
  (getMimeAndExt format
   = {| mime := "application/octet-stream"; ext := "bin" |}
   <-> ~ In format known_formats)
  /\ In (ext (getMimeAndExt format))
       ["jpg"; "png"; "webp"; "avif"; "bin"]%string
  /\ getMimeAndExt (ext (getMimeAndExt format)) = getMimeAndExt format.
Proof.
  destruct (getMimeAndExt_cases format) as [[Hin Hr]|[Hout Hr]].
  - split; [|split].
    + split; [|tauto]. intros Heq. rewrite Heq in Hr. cbn [In] in Hr.
      destruct Hr as [H|[H|[H|[H|[]]]]]; discriminate.
    + cbn [In] in Hr. destruct Hr as [<-|[<-|[<-|[<-|[]]]]]; cbn; auto 10.
    + cbn [In] in Hr. destruct Hr as [H|[H|[H|[H|[]]]]]; rewrite <- H;
        reflexivity.
  - rewrite Hr. split; [tauto|]. split; [cbn; auto 10|reflexivity].
Qed.

End MimeAndExt.

(** ** The chain of codec calls *)

Section Pipeline.

Lemma encodeStep_cases (p : NodeParameters) :
  let quality := clamp (quality p) 0 100 in
  (In (format p) target_formats /\
   exists c, encodeStep p = [c] /\ is_encoder c = true /\
     In c [sharp.jpeg quality true;
           sharp.png (pngCompressionLevelFromQuality quality) true;
           sharp.webp quality; sharp.avif quality])
  \/ (~ In (format p) target_formats /\ encodeStep p = []).
Proof.
  intros quality. unfold encodeStep, target_formats. fold quality.
  destruct (String.eqb_spec (format p) "jpg") as [E|H1].
  { left. split; [rewrite E; cbn; auto|]. eexists. cbn. auto. }
  destruct (String.eqb_spec (format p) "png") as [E|H2].
  { left. split; [rewrite E; cbn; auto|]. eexists. cbn. auto. }
  destruct (String.eqb_spec (format p) "webp") as [E|H3].
  { left. split; [rewrite E; cbn; auto|]. eexists. cbn. auto 10. }
  destruct (String.eqb_spec (format p) "avif") as [E|H4].
  { left. split; [rewrite E; cbn; auto 10|]. eexists. cbn. auto 10. }
  right. split; [|reflexivity].
  cbn [In]. intros [H|[H|[H|[H|[]]]]]; congruence.
Qed.

Lemma resizeStep_shape (p : NodeParameters) :
  forallb is_resize (resizeStep p) = true
  /\ forallb (fun c => negb (is_encoder c)) (resizeStep p) = true
  /\ (length (resizeStep p) <= 1)%nat.
Proof.
  unfold resizeStep. cbv zeta.
  destruct (truthy _ || truthy _); cbn; auto.
Qed.

Lemma metadataStep_shape (p : NodeParameters) :
  forallb is_withMetadata (metadataStep p) = true
  /\ forallb (fun c => negb (is_encoder c)) (metadataStep p) = true
  /\ (length (metadataStep p) <= 1)%nat
  /\ (In sharp.withMetadata (metadataStep p) <-> stripMetadata p = false).
Proof.
  unfold metadataStep. destruct (stripMetadata p); cbn.
  - repeat split; auto; try lia; try (intros []); discriminate.
  - repeat split; auto.
Qed.

(** X7. The node calls an encoder exactly when the format is jpg, png, webp
    or avif, and then once, as the last call of the chain.  For any other
    format, jpeg included (which [getMimeAndExt] still labels image/jpeg
    with extension jpg), no encoder is called at all. *)
Theorem encoder_called_iff_target_format (p : NodeParameters) :
  (In (format p) target_formats ->
   exists calls c,
     image p = calls ++ [c] /\ is_encoder c = true /\
     forallb (fun c' => negb (is_encoder c')) calls = true)
  /\ (~ In (format p) target_formats ->
      forallb (fun c => negb (is_encoder c)) (image p) = true)
  /\ (format p = "jpeg"%string ->
      forallb (fun c => negb (is_encoder c)) (image p) = true /\
      getMimeAndExt (format p) = {| mime := "image/jpeg"; ext := "jpg" |}).
Proof.
  destruct (resizeStep_shape p) as (_ & Hr & _).
  destruct (metadataStep_shape p) as (_ & Hm & _).
  assert (Hnone : ~ In (format p) target_formats ->
                  forallb (fun c => negb (is_encoder c)) (image p) = true).
  { intros Hout. destruct (encodeStep_cases p) as [[Hin _]|[_ He]]; [tauto|].
    unfold image. rewrite He, app_nil_r, !forallb_app, Hr, Hm. reflexivity. }
  split; [|split; [exact Hnone|]].
  - intros Hin.
    destruct (encodeStep_cases p) as [(_ & c & He & Hc & _)|[Hout _]];
      [|tauto].
    exists ([sharp.rotate] ++ resizeStep p ++ metadataStep p), c.
    split; [unfold image; now rewrite He, <- !app_assoc|].
    split; [exact Hc|]. now rewrite !forallb_app, Hr, Hm.
  - intros Hj. split; [|now rewrite Hj].
    apply Hnone. rewrite Hj. unfold target_formats. cbn [In].
    intros [H|[H|[H|[H|[]]]]]; discriminate.
Qed.

Lemma in_image (p : NodeParameters) (c : sharp.Call) :
  In c (image p) <->
  c = sharp.rotate \/ In c (resizeStep p) \/ In c (metadataStep p)
  \/ In c (encodeStep p).
Proof. unfold image. rewrite !in_app_iff. cbn [In]. intuition congruence. Qed.

Lemma not_in_of_forallb (f : sharp.Call -> bool) (l : list sharp.Call)
    (c : sharp.Call) :
  forallb f l = true -> f c = false -> ~ In c l.
Proof.
  intros Hall Hc Hin. rewrite forallb_forall in Hall.
  specialize (Hall c Hin). congruence.
Qed.

(** X8. Whatever the quality parameter, every call of the chain satisfies:
    JPEG, WebP and AVIF get a quality within [0,100], the parameter itself
    when it lies within these bounds, JPEG with mozjpeg; PNG gets a whole
    compression level between 0 and 9, with a palette. *)
Theorem encoder_options_in_range (p : NodeParameters) (c : sharp.Call)
    (Hcall : In c (image p)) :
  encoder_options_ok (quality p) c.
Proof.
  apply in_image in Hcall.
  destruct Hcall as [->|[Hc|[Hc|Hc]]]; [exact I| | |].
  - destruct (resizeStep_shape p) as (Hr & _).
    rewrite forallb_forall in Hr. specialize (Hr c Hc).
    destruct c; try discriminate. exact I.
  - destruct (metadataStep_shape p) as (Hm & _).
    rewrite forallb_forall in Hm. specialize (Hm c Hc).
    destruct c; try discriminate. exact I.
  - assert (Hrange : (0 <= clamp (quality p) 0 100 <= 100)%Q)
      by (apply clamp_range; lra).
    assert (Hfix : (0 <= quality p <= 100)%Q ->
                   clamp (quality p) 0 100 = quality p)
      by apply clamp_fixes.
    destruct (encodeStep_cases p) as [(_ & c' & He & _ & Hin)|[_ He]];
      rewrite He in Hc; [|destruct Hc].
    destruct Hc as [<-|[]]. cbn [In] in Hin.
    destruct Hin as [<-|[<-|[<-|[<-|[]]]]]; cbn [encoder_options_ok]; auto.
    split; [|reflexivity].
    rewrite png_level_value. eexists. split; [reflexivity|].
    set (q := clampZ _ 0 100).
    assert (Hq : 0 <= q <= 100) by (apply clampZ_bounds; lia).
    split; [apply Z.div_pos; lia|].
    enough (((100 - q) * 9 + 50) / 100 < 10) by lia.
    apply Z.div_lt_upper_bound; lia.
Qed.

Lemma encoder_options_in_range_witness :
  encoder_options_ok (quality defaultParameters) (sharp.jpeg 80 true).
Proof.
  apply (encoder_options_in_range defaultParameters).
  right. left. reflexivity.
Defined.

(** X9. The chain always starts with rotate, called once; then come at
    most one resize, at most one withMetadata and at most one encoder, in
    this order; withMetadata is called exactly when stripMetadata is
    false. *)
Theorem pipeline_order (p : NodeParameters) :
  (exists resizing metadata encoding,
      image p = sharp.rotate :: resizing ++ metadata ++ encoding /\
      forallb is_resize resizing = true /\
      forallb is_withMetadata metadata = true /\
      forallb is_encoder encoding = true /\
      (length resizing <= 1)%nat /\ (length metadata <= 1)%nat /\
      (length encoding <= 1)%nat)
  /\ (In sharp.withMetadata (image p) <-> stripMetadata p = false).
Proof.
  destruct (resizeStep_shape p) as (Hr1 & _ & Hr2).
  destruct (metadataStep_shape p) as (Hm1 & _ & Hm2 & Hm3).
  split.
  - exists (resizeStep p), (metadataStep p), (encodeStep p).
    split; [reflexivity|]. split; [exact Hr1|]. split; [exact Hm1|].
    destruct (encodeStep_cases p) as [(_ & c & -> & Hc & _)|[_ ->]].
    + cbn. rewrite Hc. auto.
    + cbn. auto.
  - rewrite in_image. rewrite <- Hm3. split; [|tauto].
    intros [H|[H|[H|H]]]; [discriminate| |exact H|].
    + exfalso. revert H. now apply not_in_of_forallb with (f := is_resize).
    + exfalso. revert H.
      destruct (encodeStep_cases p) as [(_ & c & -> & Hc & _)|[_ ->]].
      * intros [E|[]]. subst c. discriminate.
      * intros [].
Qed.

(** X10. A resize call never enlarges and gets whole dimensions: each of
    width and height is absent when its parameter is absent or not
    positive, and otherwise the integer part of the parameter (0 for a
    parameter below 1). *)
Theorem resize_dimensions_floored (p : NodeParameters)
    (o : sharp.ResizeOptions) (Hcall : In (sharp.resize o) (image p)) :
  sharp.withoutEnlargement o = true
  /\ dimension_ok (width (resize p)) (sharp.width o)
  /\ dimension_ok (height (resize p)) (sharp.height o).
Proof.
  assert (Hdim : forall v, dimension_ok v (dimension v)).
  { intros [x|]; cbn [dimension].
    - destruct (JsMath.gt x 0) eqn:Hgt; cbn [dimension_ok].
      + apply gt_true in Hgt. exists x, (Qfloor x).
        pose proof (Qfloor_le x) as Hf. pose proof (Qlt_floor x) as Hc.
        rewrite inject_Z_plus in Hc. change (inject_Z 1) with 1%Q in Hc.
        repeat split; try assumption.
        apply Z.lt_succ_r. rewrite Zlt_Qlt. unfold Z.succ.
        rewrite inject_Z_plus. change (inject_Z 1) with 1%Q.
        change (inject_Z 0) with 0%Q. lra.
      + apply gt_false in Hgt. intros (y & Hy & Hpos).
        injection Hy as <-. lra.
    - cbn. intros (y & Hy & _). discriminate. }
  apply in_image in Hcall.
  destruct Hcall as [H|[H|[H|H]]]; [discriminate| | |].
  - destruct (resizeStep_cases p) as [[_ Hstep]|(_ & _ & Hstep)];
      rewrite Hstep in H; [|destruct H].
    destruct H as [H|[]]. injection H as <-. cbn. auto.
  - exfalso. revert H.
    destruct (metadataStep_shape p) as (Hm & _).
    now apply not_in_of_forallb with (f := is_withMetadata).
  - exfalso. revert H.
    destruct (encodeStep_cases p) as [(_ & c & -> & Hc & _)|[_ ->]].
    + intros [E|[]]. subst c. discriminate.
    + intros [].
Qed.

Lemma resize_dimensions_floored_witness :
  sharp.withoutEnlargement
    {| sharp.width := Some 800%Q; sharp.height := None;
       sharp.fit := sharp.fill; sharp.withoutEnlargement := true |} = true
  /\ dimension_ok (Some 800%Q) (Some 800%Q)
  /\ dimension_ok None None.
Proof.
  apply (resize_dimensions_floored width800Fill
           {| sharp.width := Some 800%Q; sharp.height := None;
              sharp.fit := sharp.fill; sharp.withoutEnlargement := true |}).
  right. left. reflexivity.
Defined.

End Pipeline.

(** ** Resolving the input of a record *)

Section Resolve.

Variable host : Host.

(** X11. In binary mode a record whose binary data has no property of the
    configured name, own or inherited (or that has no binary data at all),
    fails with the message naming the property; neither the payload helper
    nor the codec is consulted, whatever the context.  Every other record is
    handed to the payload helper, with the file name of its own property as
    source file name.  This includes a name that only [Object.prototype]
    provides, such as toString: the failure of the helper is then the
    failure of the record, not the message of the node. *)
Theorem missing_binary_property (i : nat) (item : Item) :
  inputSource (getNodeParameter host i) = "binary"%string ->
  (binary_property_absent item (binaryPropertyName (getNodeParameter host i)) ->
   processItem host i item
   = Throw (noBinaryData (binaryPropertyName (getNodeParameter host i))))
  /\ (~ binary_property_absent item
          (binaryPropertyName (getNodeParameter host i)) ->
      resolveInput host (getNodeParameter host i) i item
      = bind (getBinaryDataBuffer host i
                (binaryPropertyName (getNodeParameter host i)))
          (fun inputBuffer =>
             Ok (inputBuffer,
                 sourceFileName item
                   (binaryPropertyName (getNodeParameter host i)))))
  /\ (binary_property_inherited item
         (binaryPropertyName (getNodeParameter host i)) ->
      forall message : string,
        getBinaryDataBuffer host i
          (binaryPropertyName (getNodeParameter host i)) = Throw message ->
        processItem host i item = Throw message).
Proof.
  intros Hsrc. set (p := getNodeParameter host i).
  assert (Hpresent : ~ binary_property_absent item (binaryPropertyName p) ->
            resolveInput host p i item
            = bind (getBinaryDataBuffer host i (binaryPropertyName p))
                (fun inputBuffer =>
                   Ok (inputBuffer,
                       sourceFileName item (binaryPropertyName p)))).
  { unfold resolveInput, sourceFileName, binary_property_absent.
    fold p in Hsrc. rewrite Hsrc. cbn [String.eqb Ascii.eqb Bool.eqb].
    destruct (binary item) as [slots|]; [|tauto].
    cbn [mbind option_bind].
    destruct (getProperty_cases slots (binaryPropertyName p))
      as [(binaryData & Hl & ->)|[(Hl & Hin & ->)|(Hl & Hout & ->)]];
      rewrite Hl; intros Hpresent; [reflexivity|reflexivity|tauto]. }
  split; [|split; [exact Hpresent|]].
  - intros Habsent. unfold processItem, resolveInput. cbv zeta.
    fold p. fold p in Hsrc. rewrite Hsrc.
    cbn [String.eqb Ascii.eqb Bool.eqb].
    unfold binary_property_absent in Habsent.
    destruct (binary item) as [slots|]; [|reflexivity].
    destruct Habsent as [Hl Hout].
    destruct (getProperty_cases slots (binaryPropertyName p))
      as [(binaryData & Hl' & _)|[(_ & Hin & _)|(_ & _ & ->)]];
      [congruence|tauto|reflexivity].
  - intros (slots & Hb & Hl & Hin) message Hhelper.
    unfold processItem. cbv zeta. fold p. rewrite Hpresent.
    + now rewrite Hhelper.
    + unfold binary_property_absent. rewrite Hb. tauto.
Qed.

Lemma resolveInput_base64_cases (p : NodeParameters) (i : nat) (item : Item) :
  inputSource p <> "binary"%string ->
  (exists c s,
      json item !! base64FieldName p = Some (JString (String c s)) /\
      resolveInput host p i item
      = Ok (Buffer_from_base64 host (replace_data_uri_prefix (String c s)),
            Some "input"%string))
  \/ ((forall c s,
         json item !! base64FieldName p <> Some (JString (String c s))) /\
      resolveInput host p i item
      = Throw (noBase64String (base64FieldName p))).
Proof.
  intros Hsrc. unfold resolveInput.
  apply String.eqb_neq in Hsrc. rewrite Hsrc.
  destruct (json item !! base64FieldName p) as [[| | |[|c s]| |]|];
    try (right; split; [intros c' s'; discriminate|reflexivity]).
  left. now exists c, s.
Qed.

(** X12. In base64 mode the input resolves exactly when the named field of
    the structured data holds a non-empty string; a missing field, a value
    of another type and the empty string all give the error naming the
    field.  The binary data of the record is never looked at. *)
Theorem base64_field_must_be_text (p : NodeParameters) (i : nat)
    (item : Item) (Hmode : inputSource p <> "binary"%string) :
  ((exists resolved, resolveInput host p i item = Ok resolved)
   <-> exists c s,
         json item !! base64FieldName p = Some (JString (String c s)))
  /\ ((forall c s,
          json item !! base64FieldName p <> Some (JString (String c s))) ->
      resolveInput host p i item
      = Throw (noBase64String (base64FieldName p)))
  /\ (forall other : Item,
        json other = json item ->
        resolveInput host p i other = resolveInput host p i item).
Proof.
  split; [|split].
  - destruct (resolveInput_base64_cases p i item Hmode)
      as [(c & s & Hf & Hr)|[Hno Hr]].
    + split; eauto.
    + split.
      * intros [resolved Hok]. congruence.
      * intros (c & s & Hf). now apply Hno in Hf.
  - intros Hno.
    destruct (resolveInput_base64_cases p i item Hmode)
      as [(c & s & Hf & _)|[_ Hr]]; [now apply Hno in Hf|exact Hr].
  - intros other Hjson. unfold resolveInput.
    apply String.eqb_neq in Hmode. now rewrite Hmode, Hjson.
Qed.

End Resolve.

Lemma base64_field_must_be_text_witness :
  (exists resolved,
      resolveInput base64Host base64Parameters 0
        (base64Item "imageBase64" "AAAA") = Ok resolved)
  /\ resolveInput base64Host base64Parameters 0 (base64Item "other" "AAAA")
     = Throw (noBase64String "imageBase64").
Proof.
  destruct (base64_field_must_be_text base64Host base64Parameters 0
              (base64Item "imageBase64" "AAAA")) as (H1 & _ & _);
    [discriminate|].
  destruct (base64_field_must_be_text base64Host base64Parameters 0
              (base64Item "other" "AAAA")) as (_ & H2 & _);
    [discriminate|].
  split.
  - apply H1. exists "A"%char, "AAA"%string. reflexivity.
  - apply H2. intros c s. discriminate.
Defined.

Lemma missing_binary_property_witness :
  processItem strictHost 1 record2 = Throw (noBinaryData "data")
  /\ processItem inheritedNameHost 0 record1
     = Throw "The item has no binary field".
Proof.
  destruct (missing_binary_property strictHost 1 record2 eq_refl)
    as (Habsent & _ & _).
  destruct (missing_binary_property inheritedNameHost 0 record1 eq_refl)
    as (_ & _ & Hinherited).
  split.
  - apply Habsent. split; [reflexivity|].
    intros Hin. apply existsb_eqb_In in Hin. discriminate.
  - apply Hinherited; [|reflexivity].
    eexists. split; [reflexivity|]. split; [reflexivity|].
    apply existsb_eqb_In. reflexivity.
Defined.

(** ** What a record becomes *)

Section Outcome.

Variable host : Host.

(** X13. A record read from the base64 field stores its result under the
    file name input.<ext> with the mime type of the format, in the output
    property. *)
Theorem base64_output_is_named_input (i : nat) (item newItem : Item) :
  let p := getNodeParameter host i in
  inputSource p <> "binary"%string ->
  processItem host i item = Ok newItem ->
  exists outputBuffer binaryOut,
    prepareBinaryData host outputBuffer
      ("input." ++ ext (getMimeAndExt (format p)))%string
      (mime (getMimeAndExt (format p))) = Ok binaryOut /\
    binary newItem ≫= (fun b => b !! outputBinaryPropertyName p)
    = Some binaryOut.
Proof.
  intros p Hmode Hok.
  destruct (processItem_Ok host i item newItem Hok)
    as (inputBuffer & name & outputBuffer & binaryOut
        & Hin & _ & _ & Hprep & ->).
  fold p in Hin, Hprep.
  rewrite (resolveInput_base64_name host p i item _ _ Hmode Hin) in Hprep.
  exists outputBuffer, binaryOut. split; [exact Hprep|].
  cbn [binary mbind option_bind]. fold p. apply lookup_insert_eq.
Qed.

(** X14. A record that succeeds always has a binary map: the one of the
    input record (empty if it had none) with the output property set to
    the stored result; every other binary property is kept as it was, and
    a property of the same name is replaced. *)
Theorem output_binary_keeps_other_properties (i : nat)
    (item newItem : Item) :
  let p := getNodeParameter host i in
  processItem host i item = Ok newItem ->
  exists slots binaryOut,
    binary newItem = Some slots /\
    slots !! outputBinaryPropertyName p = Some binaryOut /\
    (forall name,
        name <> outputBinaryPropertyName p ->
        slots !! name = binary item ≫= (fun b => b !! name)) /\
    (forall name previous,
        binary item ≫= (fun b => b !! name) = Some previous ->
        is_Some (slots !! name)).
Proof.
  intros p Hok.
  destruct (processItem_Ok host i item newItem Hok)
    as (inputBuffer & name & outputBuffer & binaryOut & _ & _ & _ & _ & ->).
  fold p. eexists _, binaryOut. split; [reflexivity|].
  assert (Hother : forall key, key <> outputBinaryPropertyName p ->
            <[outputBinaryPropertyName p := binaryOut]>
              (default ∅ (binary item)) !! key
            = binary item ≫= (fun b => b !! key)).
  { intros key Hkey. rewrite lookup_insert_ne by congruence.
    destruct (binary item); [reflexivity|apply lookup_empty]. }
  split; [apply lookup_insert_eq|]. split; [exact Hother|].
  intros key previous Hprev.
  destruct (decide (key = outputBinaryPropertyName p)) as [->|Hne].
  - rewrite lookup_insert_eq. eauto.
  - rewrite Hother by exact Hne. rewrite Hprev. eauto.
Qed.

End Outcome.

Lemma base64_record_ok :
  processItem base64Host 0 (base64Item "imageBase64" "AAAA")
  = Ok (recordOutput base64Host 0 (base64Item "imageBase64" "AAAA")).
Proof. vm_compute. reflexivity. Qed.

Lemma base64_output_is_named_input_witness :
  exists outputBuffer binaryOut,
    prepareBinaryData base64Host outputBuffer "input.jpg" "image/jpeg"
    = Ok binaryOut /\
    binary (recordOutput base64Host 0 (base64Item "imageBase64" "AAAA"))
      ≫= (fun b => b !! "data"%string)
    = Some binaryOut.
Proof.
  apply (base64_output_is_named_input base64Host 0
           (base64Item "imageBase64" "AAAA")).
  - discriminate.
  - exact base64_record_ok.
Defined.

Lemma output_binary_keeps_other_properties_witness :
  exists slots binaryOut,
    binary (recordOutput tolerantHost 0 record1) = Some slots /\
    slots !! "data"%string = Some binaryOut /\
    (forall name,
        name <> "data"%string ->
        slots !! name = binary record1 ≫= (fun b => b !! name)) /\
    (forall name previous,
        binary record1 ≫= (fun b => b !! name) = Some previous ->
        is_Some (slots !! name)).
Proof.
  apply (output_binary_keeps_other_properties tolerantHost 0 record1).
  exact (record1_ok true).
Defined.

(** ** Bounds of the statistics *)

Section StatisticsBounds.

Lemma ratio_sign (o n : Q) :
  (0 < o)%Q ->
  ((n < o)%Q -> (0 < (o - n) / o)%Q)
  /\ ((n == o)%Q -> ((o - n) / o == 0)%Q)
  /\ ((o < n)%Q -> ((o - n) / o < 0)%Q)
  /\ ((0 <= n)%Q -> ((o - n) / o <= 1)%Q)
  /\ ((0 < n)%Q -> ((o - n) / o < 1)%Q)
  /\ ((n == 0)%Q -> ((o - n) / o == 1)%Q).
Proof.
  intros Ho. repeat split; intros H.
  - apply Qlt_shift_div_l; lra.
  - rewrite H. field. lra.
  - apply Qlt_shift_div_r; lra.
  - apply Qle_shift_div_r; lra.
  - apply Qlt_shift_div_r; lra.
  - rewrite H. field. lra.
Qed.

(** X15. For a non-empty input the reported percentage never exceeds 100,
    is 100 exactly when the output is empty, is positive exactly when the
    output is smaller than the input and 0 exactly when both have the same
    size. *)
Theorem percent_reduction_bounds (originalSize newSize : nat)
    (Hinput : originalSize <> 0%nat) :
  let o := inject_Z (Z.of_nat originalSize) in
  let n := inject_Z (Z.of_nat newSize) in
  (percentReduction o n <= 100)%Q
  /\ ((percentReduction o n == 100)%Q <-> newSize = 0%nat)
  /\ ((0 < percentReduction o n)%Q <-> (newSize < originalSize)%nat)
  /\ ((percentReduction o n == 0)%Q <-> newSize = originalSize).
Proof.
  intros o n.
  assert (Ho : (0 < o)%Q).
  { unfold o. change 0%Q with (inject_Z 0). rewrite <- Zlt_Qlt. lia. }
  assert (Hn : (0 <= n)%Q).
  { unfold n. change 0%Q with (inject_Z 0). rewrite <- Zle_Qle. lia. }
  assert (Hlt : (newSize < originalSize)%nat <-> (n < o)%Q).
  { unfold o, n. rewrite <- Zlt_Qlt. lia. }
  assert (Heq : newSize = originalSize <-> (n == o)%Q).
  { unfold o, n. rewrite inject_Z_injective. lia. }
  assert (Hz : newSize = 0%nat <-> (n == 0)%Q).
  { unfold n. change 0%Q with (inject_Z 0). rewrite inject_Z_injective. lia. }
  rewrite percentReduction_pos by exact Ho.
  destruct (ratio_sign o n Ho) as (R1 & R2 & R3 & R4 & R5 & R6).
  set (r := ((o - n) / o)%Q) in *.
  destruct (Q_dec n o) as [[Hc|Hc]|Hc];
    destruct (Q_dec n 0) as [[Hd|Hd]|Hd]; try lra;
    try specialize (R1 Hc); try specialize (R2 Hc); try specialize (R3 Hc);
    try specialize (R4 Hn); try specialize (R5 Hd); try specialize (R6 Hd);
    rewrite Hlt, Heq, Hz; repeat split; intros; lra.
Qed.

Lemma percent_reduction_bounds_witness :
  (percentReduction 100 25 <= 100)%Q
  /\ ((percentReduction 100 25 == 100)%Q <-> 25%nat = 0%nat)
  /\ ((0 < percentReduction 100 25)%Q <-> (25 < 100)%nat)
  /\ ((percentReduction 100 25 == 0)%Q <-> 25%nat = 100%nat).
Proof. apply (percent_reduction_bounds 100 25). lia. Defined.

End StatisticsBounds.

(** ** The batch as a whole *)

Section Batch.

Variable host : Host.

Lemma loop_Thrown (rest : list Item) (i : nat) (returnData : list Item)
    (message : string) :
  completion (loop host rest i returnData) = Thrown message ->
  continueOnFail host = false /\
  exists pre bad tail,
    rest = pre ++ bad :: tail /\
    (forall j item, pre !! j = Some item ->
                    exists newItem, processItem host (i + j) item = Ok newItem) /\
    processItem host (i + length pre) bad = Throw message.
Proof.
  revert i returnData.
  induction rest as [|item rest IH]; intros i returnData Hthrown.
  - discriminate.
  - cbn [loop] in Hthrown.
    destruct (processItem host i item) as [newItem|m] eqn:Hitem.
    + destruct (IH _ _ Hthrown) as (Hc & pre & bad & tail & -> & Hok & Hbad).
      split; [exact Hc|]. exists (item :: pre), bad, tail.
      split; [reflexivity|]. split.
      * intros [|j] x Hx.
        -- injection Hx as <-. rewrite Nat.add_0_r. eauto.
        -- replace (i + S j)%nat with (S i + j)%nat by lia. now apply Hok.
      * cbn [length]. now replace (i + S (length pre))%nat
          with (S i + length pre)%nat by lia.
    + destruct (continueOnFail host) eqn:Hc.
      * destruct (IH _ _ Hthrown) as (Hc' & _). discriminate.
      * cbn [completion] in Hthrown. injection Hthrown as <-.
        split; [reflexivity|]. exists [], item, rest.
        split; [reflexivity|]. split.
        -- intros j x Hx. discriminate.
        -- cbn [length]. now rewrite Nat.add_0_r.
Qed.

Lemma loop_all_succeed (items : list Item) :
  (forall j item, items !! j = Some item ->
                  exists newItem, processItem host j item = Ok newItem) ->
  execute host items = Returned [imap (recordOutput host) items].
Proof.
  intros Hok. unfold execute.
  rewrite <- (app_nil_r items) at 1.
  rewrite loop_success_prefix by exact Hok. reflexivity.
Qed.

(** X17. With failure tolerance on, execute never rejects: it returns one
    output list holding one record per input record, in input order, and
    the record at a position depends on the input record at that position
    alone (its processed form, or its error record). *)
Theorem tolerant_batch_one_output_per_record (items : list Item)
    (Htolerant : continueOnFail host = true) :
  exists returnData,
    execute host items = Returned [returnData] /\
    length returnData = length items /\
    (forall j, returnData !! j = recordOutput host j <$> items !! j) /\
    (forall message, execute host items <> Thrown message).
Proof.
  exists (imap (recordOutput host) items).
  rewrite execute_continue by exact Htolerant.
  split; [reflexivity|]. split; [apply length_imap|].
  split; [intros j; apply list_lookup_imap|]. discriminate.
Qed.

(** X18. When no record fails, execute returns the processed records, one
    per input record in input order, whatever the failure mode; and with
    failure tolerance off this is the only way it returns. *)
Theorem batch_without_failure (items : list Item) :
  ((forall j item, items !! j = Some item ->
                   exists newItem, processItem host j item = Ok newItem) ->
   execute host items = Returned [imap (recordOutput host) items] /\
   forall j item, items !! j = Some item ->
     imap (recordOutput host) items !! j = Some (recordOutput host j item) /\
     processItem host j item = Ok (recordOutput host j item))
  /\ (continueOnFail host = false ->
      forall output, execute host items = Returned output ->
      forall j item, items !! j = Some item ->
                     exists newItem, processItem host j item = Ok newItem).
Proof.
  split.
  - intros Hok. split; [now apply loop_all_succeed|].
    intros j item Hj. rewrite list_lookup_imap, Hj. split; [reflexivity|].
    destruct (Hok j item Hj) as [newItem Hnew]. unfold recordOutput.
    now rewrite Hnew.
  - intros Hstrict output Hret. unfold execute in Hret.
    assert (Hgen : forall rest i acc out,
              completion (loop host rest i acc) = Returned out ->
              forall j item, rest !! j = Some item ->
                exists newItem, processItem host (i + j) item = Ok newItem).
    { induction rest as [|x rest IH]; intros i acc out Hout j item Hj;
        [discriminate|].
      cbn [loop] in Hout.
      destruct (processItem host i x) as [newItem|m] eqn:Hx.
      - destruct j as [|j].
        + injection Hj as <-. rewrite Nat.add_0_r. eauto.
        + replace (i + S j)%nat with (S i + j)%nat by lia.
          now apply (IH _ _ _ Hout).
      - rewrite Hstrict in Hout. discriminate. }
    intros j item Hj. exact (Hgen _ _ _ _ Hret j item Hj).
Qed.

(** X19. execute rejects only with failure tolerance off, and then with
    the message of the first record that fails: every record before it was
    processed successfully. *)
Theorem rejection_is_first_failure (items : list Item) (message : string) :
  execute host items = Thrown message ->
  continueOnFail host = false /\
  exists pre bad tail,
    items = pre ++ bad :: tail /\
    (forall j item, pre !! j = Some item ->
                    exists newItem, processItem host j item = Ok newItem) /\
    processItem host (length pre) bad = Throw message.
Proof.
  intros Hthrown. exact (loop_Thrown items 0 [] message Hthrown).
Qed.

End Batch.

Lemma tolerant_batch_one_output_per_record_witness :
  exists returnData,
    execute tolerantHost batch = Returned [returnData] /\
    length returnData = length batch /\
    (forall j, returnData !! j = recordOutput tolerantHost j <$> batch !! j) /\
    (forall message, execute tolerantHost batch <> Thrown message).
Proof.
  apply (tolerant_batch_one_output_per_record tolerantHost batch).
  reflexivity.
Defined.

Lemma strict_batch_rejected : execute strictHost batch = Thrown (noBinaryData "data").
Proof. vm_compute. reflexivity. Qed.

Lemma rejection_is_first_failure_witness :
  continueOnFail strictHost = false /\
  exists pre bad tail,
    batch = pre ++ bad :: tail /\
    (forall j item, pre !! j = Some item ->
       exists newItem, processItem strictHost j item = Ok newItem) /\
    processItem strictHost (length pre) bad = Throw (noBinaryData "data").
Proof.
  apply (rejection_is_first_failure strictHost batch (noBinaryData "data")).
  exact strict_batch_rejected.
Defined.

Lemma batch_without_failure_witness :
  execute goodHost goodBatch
  = Returned [imap (recordOutput goodHost) goodBatch]
  /\ forall j item, goodBatch !! j = Some item ->
       imap (recordOutput goodHost) goodBatch !! j
       = Some (recordOutput goodHost j item) /\
       processItem goodHost j item = Ok (recordOutput goodHost j item).
Proof.
  destruct (batch_without_failure goodHost goodBatch) as [H _].
  apply H. intros [|[|j]] item Hj; try discriminate;
    injection Hj as <-; eexists; vm_compute; reflexivity.
Defined.

(** ** The size limit *)

Section SizeLimit.

(** X20. The size limit is never below 1 MB: an input of at most 1048576
    bytes passes whatever maximum is configured (zero, negative or a
    fraction included).  Only the integer part of the maximum counts, and
    raising the maximum never turns an accepted input into a refused
    one. *)
Theorem size_limit_floor (n : nat) (m : Q) :
  (Z.of_nat n <= 1048576 -> sizeGuard (inject_Z (Z.of_nat n)) m = Ok tt)
  /\ sizeGuard (inject_Z (Z.of_nat n)) (JsMath.floor m)
     = sizeGuard (inject_Z (Z.of_nat n)) m
  /\ (forall m' : Q,
        (m <= m')%Q ->
        sizeGuard (inject_Z (Z.of_nat n)) m = Ok tt ->
        sizeGuard (inject_Z (Z.of_nat n)) m' = Ok tt).
Proof.
  split; [|split].
  - intros Hn.
    destruct (sizeGuard_cases (Z.of_nat n) m) as [[Hgt _]|[_ Hok]];
      [lia|exact Hok].
  - unfold sizeGuard. rewrite !maxBytes_integer. unfold JsMath.floor.
    now rewrite Qfloor_Z.
  - intros m' Hle Hok.
    pose proof (Qfloor_resp_le _ _ Hle) as Hf.
    destruct (sizeGuard_cases (Z.of_nat n) m) as [[_ Hth]|[Hin _]];
      [congruence|].
    destruct (sizeGuard_cases (Z.of_nat n) m') as [[Hgt _]|[_ Hok']];
      [lia|exact Hok'].
Qed.

Lemma size_limit_floor_witness :
  sizeGuard (inject_Z 1048576) (-3) = Ok tt
  /\ sizeGuard (inject_Z 1048576) (JsMath.floor (5 # 2))
     = sizeGuard (inject_Z 1048576) (5 # 2).
Proof.
  destruct (size_limit_floor (N.to_nat 1048576) (-3)) as (H1 & _ & _).
  destruct (size_limit_floor (N.to_nat 1048576) (5 # 2)) as (_ & H2 & _).
  rewrite N_nat_Z in H1, H2. split; [apply H1; reflexivity|exact H2].
Defined.

End SizeLimit.

(** ** The data-URI prefix, read backwards *)

Section DataUriShape.

Lemma string_of_list_ascii_app (a b : list ascii) :
  string_of_list_ascii (a ++ b)
  = (string_of_list_ascii a ++ string_of_list_ascii b)%string.
Proof. induction a as [|c a IH]; simpl; [reflexivity|now rewrite IH]. Qed.

Lemma strip_literal_Some (lit s rest : list ascii) :
  strip_literal lit s = Some rest -> s = lit ++ rest.
Proof.
  revert s. induction lit as [|a lit IH]; intros s H.
  - cbn in H. destruct s; injection H as <-; reflexivity.
  - destruct s as [|b s]; [discriminate|]. cbn in H.
    destruct (Ascii.eqb_spec a b) as [->|_]; [|discriminate].
    cbn. f_equal. now apply IH.
Qed.

Lemma span_split (f : ascii -> bool) (l : list ascii) :
  l = fst (span f l) ++ snd (span f l)
  /\ forall c, In c (fst (span f l)) -> f c = true.
Proof.
  induction l as [|c l [IH1 IH2]]; cbn; [split; [reflexivity|intros c []]|].
  destruct (f c) eqn:Hc; [|split; [reflexivity|intros x []]].
  destruct (span f l) as [a b]. cbn in *. split; [now f_equal|].
  intros x [<-|Hx]; [exact Hc|now apply IH2].
Qed.

(** X21. The replacement removes nothing, or exactly one leading
    data:<mime>;base64, whose mime part is not empty and has no
    semicolon; what remains is the rest of the string, untouched. *)
Theorem data_uri_prefix_shape (b64raw : string) :
  replace_data_uri_prefix b64raw = b64raw
  \/ exists m : string,
       mime_token m /\
       b64raw
       = ("data:" ++ m ++ ";base64," ++ replace_data_uri_prefix b64raw)%string.
Proof.
  unfold replace_data_uri_prefix.
  destruct (strip_literal _ (list_ascii_of_string b64raw)) as [rest|] eqn:Hd;
    [|now left].
  apply strip_literal_Some in Hd.
  destruct (span_split (fun c => negb (Ascii.eqb c ";")) rest) as [Hs Hall].
  destruct (span _ rest) as [[|c mime] rest'] eqn:Hspan; [now left|].
  cbn [fst snd] in Hs, Hall.
  destruct (strip_literal _ rest') as [cleaned|] eqn:Hb; [|now left].
  apply strip_literal_Some in Hb.
  right. exists (string_of_list_ascii (c :: mime)). split.
  - split; [discriminate|]. unfold no_char.
    rewrite list_ascii_of_string_of_list_ascii. intros Hin.
    specialize (Hall _ Hin). discriminate.
  - rewrite <- (string_of_list_ascii_of_string b64raw) at 1.
    rewrite Hd, Hs, Hb, !string_of_list_ascii_app.
    now rewrite string_of_list_ascii_of_string.
Qed.

End DataUriShape.

(** ** The output file name as a path *)

Section FileNameShape.

Lemma span_fst_incl (f : ascii -> bool) (l : list ascii) (c : ascii) :
  In c (fst (span f l)) -> In c l /\ f c = true.
Proof.
  intros Hin. destruct (span_split f l) as [Hs Hall].
  split; [|now apply Hall]. rewrite Hs. apply in_or_app. now left.
Qed.

Lemma span_snd_incl (f : ascii -> bool) (l : list ascii) (c : ascii) :
  In c (snd (span f l)) -> In c l.
Proof.
  intros Hin. destruct (span_split f l) as [Hs _].
  rewrite Hs. apply in_or_app. now right.
Qed.

Lemma rev_name_incl (rbase : list ascii) (c : ascii) :
  In c (path.rev_name rbase) -> In c rbase.
Proof.
  unfold path.rev_name.
  pose proof (span_snd_incl (fun c => negb (path.is_dot c)) rbase) as Hsnd.
  destruct (span _ rbase) as [a b]. cbn [snd] in Hsnd.
  intros Hin.
  destruct a as [|x a]; destruct b as [|dot [|d [|d' rstem]]];
    cbn in Hin; try exact Hin; try (apply Hsnd; now right).
  destruct (path.is_dot d); [exact Hin|].
  apply Hsnd. now right.
Qed.

Lemma parse_name_no_separator (name : string) :
  no_char "/" (path.parse_name name).
Proof.
  unfold no_char, path.parse_name.
  rewrite list_ascii_of_string_of_list_ascii. intros Hin.
  apply in_rev in Hin.
  destruct (path.after_root_dotdot (list_ascii_of_string name)).
  - destruct Hin as [H|[]]. discriminate.
  - apply rev_name_incl in Hin. unfold path.rev_base in Hin.
    apply span_fst_incl in Hin. destruct Hin as [_ Hsep]. discriminate.
Qed.

(** X22. Whatever the source file name and the format, the output file name
    contains no path separator: directories of the source name are
    dropped. *)
Theorem output_file_name_has_no_directory (originalFileName : option string)
    (format : string) :
  no_char "/" (outFileName originalFileName format).
Proof.
  unfold no_char, outFileName.
  rewrite !list_ascii_of_string_app. rewrite !in_app_iff.
  intros [Hbase|[Hdot|Hext]].
  - revert Hbase. unfold baseName.
    destruct originalFileName as [[|c s]|];
      try (cbn; intros H;
           repeat (destruct H as [H|H]; [discriminate|]); exact H).
    apply parse_name_no_separator.
  - cbn in Hdot. destruct Hdot as [H|[]]. discriminate.
  - revert Hext.
    destruct (getMimeAndExt_cases format) as [[_ Hr]|[_ ->]].
    + cbn [In] in Hr. destruct Hr as [<-|[<-|[<-|[<-|[]]]]]; cbn; intros H;
        repeat (destruct H as [H|H]; [discriminate|]); exact H.
    + cbn. intros H.
      repeat (destruct H as [H|H]; [discriminate|]). exact H.
Qed.

End FileNameShape.

(** ** Labels, summary and declared ranges *)

Section Labels.

(** X23. Whenever an encoder is called, it is the one of the mime type the
    result is stored with: jpeg for image/jpeg, png for image/png, webp for
    image/webp, avif for image/avif. *)
Theorem stored_mime_matches_encoder (p : NodeParameters) (c : sharp.Call)
    (Hcall : In c (image p)) (Hencoder : is_encoder c = true) :
  encoder_mime c = Some (mime (getMimeAndExt (format p))).
Proof.
  apply in_image in Hcall.
  destruct Hcall as [->|[Hc|[Hc|Hc]]]; [discriminate| | |].
  - destruct (resizeStep_shape p) as (_ & Hr & _).
    rewrite forallb_forall in Hr. specialize (Hr c Hc).
    rewrite Hencoder in Hr. discriminate.
  - destruct (metadataStep_shape p) as (_ & Hm & _).
    rewrite forallb_forall in Hm. specialize (Hm c Hc).
    rewrite Hencoder in Hm. discriminate.
  - revert Hc. unfold encodeStep, getMimeAndExt.
    destruct (String.eqb_spec (format p) "jpg") as [E|H1]; cbn [orb].
    { intros [<-|[]]. reflexivity. }
    destruct (String.eqb_spec (format p) "png") as [E|H2].
    { rewrite E. intros [<-|[]]. reflexivity. }
    destruct (String.eqb_spec (format p) "webp") as [E|H3].
    { rewrite E. intros [<-|[]]. reflexivity. }
    destruct (String.eqb_spec (format p) "avif") as [E|H4].
    { rewrite E. intros [<-|[]]. reflexivity. }
    intros [].
Qed.

Lemma stored_mime_matches_encoder_witness :
  encoder_mime (sharp.jpeg 80 true)
  = Some (mime (getMimeAndExt (format defaultParameters))).
Proof.
  apply (stored_mime_matches_encoder defaultParameters).
  - right. left. reflexivity.
  - reflexivity.
Defined.

(** X24. Within the range declared for the maximum input size, 1 to 512
    MB, the limit is the integer part of the maximum in megabytes: at
    least 1048576 and at most 536870912 bytes. *)
Theorem size_limit_in_declared_range (m : Q)
    (Hrange : (1 <= m <= 512)%Q) :
  maxBytes m = inject_Z (Qfloor m * 1024 * 1024)
  /\ 1048576 <= Qfloor m * 1024 * 1024 <= 536870912.
Proof.
  destruct Hrange as [Hlo Hhi].
  apply Qfloor_resp_le in Hlo, Hhi.
  change (Qfloor 1) with 1 in Hlo. change (Qfloor 512) with 512 in Hhi.
  rewrite maxBytes_integer. split; [|lia].
  f_equal. lia.
Qed.

Lemma size_limit_in_declared_range_witness :
  maxBytes 25 = inject_Z (Qfloor 25 * 1024 * 1024)
  /\ 1048576 <= Qfloor 25 * 1024 * 1024 <= 536870912.
Proof.
  apply (size_limit_in_declared_range 25).
  split; unfold Qle; simpl; lia.
Defined.

Variable host : Host.

(** X25. The compression summary of a processed record has exactly the
    four fields originalSize, newSize, percentReduction and format, the
    last being the format parameter as given; it takes the place of any
    field named compression the record carried. *)
Theorem compression_summary_fields (i : nat) (item newItem : Item) :
  processItem host i item = Ok newItem ->
  exists fields : gmap string JsonValue,
    json newItem !! "compression"%string = Some (JObject fields) /\
    dom fields = summary_fields /\
    fields !! "format"%string
    = Some (JString (format (getNodeParameter host i))) /\
    json newItem = <["compression"%string := JObject fields]>
                     (delete "compression"%string (json item)).
Proof.
  intros Hok.
  destruct (processItem_Ok host i item newItem Hok)
    as (inputBuffer & name & outputBuffer & binaryOut & _ & _ & _ & _ & ->).
  cbn [json]. unfold compression. eexists.
  split; [apply lookup_insert_eq|]. split; [|split].
  - unfold summary_fields. cbn [list_to_map foldr fst snd uncurry].
    rewrite !dom_insert_L, dom_empty_L. set_solver.
  - reflexivity.
  - now rewrite insert_delete_eq.
Qed.

(** X26. In binary mode the structured data of a record is not read: two
    records with the same binary data fail with the same message, or both
    succeed with the same binary map and the same compression summary. *)
Theorem binary_mode_ignores_json (i : nat) (item other : Item) :
  inputSource (getNodeParameter host i) = "binary"%string ->
  binary other = binary item ->
  match processItem host i item, processItem host i other with
  | Ok a, Ok b =>
      binary a = binary b /\
      json a !! "compression"%string = json b !! "compression"%string
  | Throw m1, Throw m2 => m1 = m2
  | _, _ => False
  end.
Proof.
  intros Hsrc Hbin. unfold processItem. cbv zeta.
  assert (Hres : resolveInput host (getNodeParameter host i) i other
                 = resolveInput host (getNodeParameter host i) i item).
  { unfold resolveInput. now rewrite Hsrc, Hbin. }
  rewrite Hres.
  destruct (resolveInput host _ i item) as [[inputBuffer name]|];
    cbn [bind]; [|reflexivity].
  destruct (sizeGuard _ _); cbn [bind]; [|reflexivity].
  destruct (toBuffer host inputBuffer _); cbn [bind]; [|reflexivity].
  destruct (prepareBinaryData host _ _ _); cbn [bind]; [|reflexivity].
  cbn [binary json]. rewrite Hbin, !lookup_insert_eq. auto.
Qed.

End Labels.

Lemma compression_summary_fields_witness :
  exists fields : gmap string JsonValue,
    json (recordOutput tolerantHost 0 record1) !! "compression"%string
    = Some (JObject fields) /\
    dom fields = summary_fields /\
    fields !! "format"%string = Some (JString "jpg") /\
    json (recordOutput tolerantHost 0 record1)
    = <["compression"%string := JObject fields]>
        (delete "compression"%string (json record1)).
Proof.
  apply (compression_summary_fields tolerantHost 0 record1).
  exact (record1_ok true).
Defined.

Lemma binary_mode_ignores_json_witness :
  match processItem tolerantHost 0 record1,
        processItem tolerantHost 0
          {| json := {["note"%string := JBool true]};
             binary := binary record1 |} with
  | Ok a, Ok b =>
      binary a = binary b /\
      json a !! "compression"%string = json b !! "compression"%string
  | Throw m1, Throw m2 => m1 = m2
  | _, _ => False
  end.
Proof.
  apply (binary_mode_ignores_json tolerantHost 0 record1); reflexivity.
Defined.
